(** * Commission ledger and payout allocator

    A shallow embedding of the payout handlers of the admin controller
    ([updatePayoutStatus] and [createPayout]) together with the part of
    the persistent store they read and write, and the properties of the
    ledger checked against that code.

    The controller exists in two revisions in the repository.  The one
    the routers import (it exports [updateOrderStatus]) is embedded at top
    level; the createPayout of the older revision kept under
    src/controllers/admin.controller.ts is embedded in [Module Legacy].
    [updatePayoutStatus] is the same text in both. *)

From Stdlib Require Import ZArith List String Bool Arith Lia.
From Stdlib Require Import Sorting.Permutation Sorting.Sorted.
Import ListNotations.

Local Open Scope string_scope.
Local Open Scope list_scope.
Local Open Scope Z_scope.

(* ================================================================== *)
(** ** Data model (prisma schema, as created by the migration) *)
(* ================================================================== *)

(** Primary keys are TEXT columns filled by the ORM; they are modelled as
    numbers drawn from a counter of the store. *)
Definition Id := nat.
Bind Scope nat_scope with Id.

(** TIMESTAMP(3) columns and [new Date()]. *)
Definition Time := Z.

(** DECIMAL columns read through [Number(...)], and the amounts of
    requests.  The handlers compute on IEEE doubles; the model computes
    exactly, on integers counting hundredths of a currency unit.  The two
    agree where the doubles are exact, see [exactAmounts]. *)
Definition Money := Z.
Definition units (n : Z) : Money := n * 100.

Inductive CommissionStatus := C_PENDING | C_APPROVED | C_PAID | C_BLOCKED.
Inductive PayoutStatus := PENDING | APPROVED | PAID | REJECTED.

Definition CommissionStatus_eqb (a b : CommissionStatus) : bool :=
  match a, b with
  | C_PENDING, C_PENDING | C_APPROVED, C_APPROVED
  | C_PAID, C_PAID | C_BLOCKED, C_BLOCKED => true
  | _, _ => false
  end.

Definition PayoutStatus_eqb (a b : PayoutStatus) : bool :=
  match a, b with
  | PENDING, PENDING | APPROVED, APPROVED
  | PAID, PAID | REJECTED, REJECTED => true
  | _, _ => false
  end.

Record Commission := mkCommission {
  c_id : Id;
  c_orderId : Id;
  c_userId : Id;
  c_amount : Money;
  c_status : CommissionStatus;
  c_createdAt : Time
}.

(** The updatedAt column is maintained by the ORM, not by the handlers,
    and is left out. *)
Record Payout := mkPayout {
  p_id : Id;
  p_userId : Id;
  p_amount : Money;
  p_status : PayoutStatus;
  p_transactionId : option string;
  p_approvedAt : option Time;
  p_paidAt : option Time;
  p_createdAt : Time
}.

Record PayoutCommission := mkPayoutCommission {
  pc_id : Id;
  pc_payoutId : Id;
  pc_commissionId : Id
}.

(** Tables are kept in insertion order, which is also the order in which
    an unordered [findMany] returns its rows. *)
Record Store := mkStore {
  commissions : list Commission;
  payouts : list Payout;
  payoutCommissions : list PayoutCommission;
  nextId : Id
}.

(* ================================================================== *)
(** ** Responses *)
(* ================================================================== *)

Inductive Body :=
| Message (message : string)
| PayoutJson (payout : Payout).

(** [res.status(code).json(body)]. *)
Inductive Response := Res (code : Z) (body : Body).

Definition minimumPayoutThreshold : Money := units 50.

Definition ValidAmountRequired : Response :=
  Res 400 (Message "Valid amount is required").
Definition BelowMinimumThreshold : Response :=
  Res 400 (Message
    "Minimum payout amount is $50. Please request at least $50 for payout.").
Definition InsufficientBalance : Response :=
  Res 400 (Message "Requested amount exceeds available commission balance").
Definition InvalidStatus : Response :=
  Res 400 (Message "Invalid payout status").
Definition NotFound : Response :=
  Res 404 (Message "Payout not found").
Definition StoreFailure : Response :=
  Res 500 (Message "Internal server error").

(* ================================================================== *)
(** ** The store monad

    Every handler is a sequence of awaited store calls inside one
    try/catch.  A computation threads the store and a write budget:
    [None] is a store that never fails, [Some n] a store whose write
    number n+1 throws (reads are taken not to fail: a failing read
    writes nothing either).  A thrown call yields no value and leaves
    the store as the earlier writes made it: nothing is rolled back. *)
(* ================================================================== *)

Definition Budget := option nat.

Definition DB (A : Type) : Type := Store -> Budget -> Store * Budget * option A.

Definition ret {A} (a : A) : DB A := fun s b => (s, b, Some a).

Definition bind {A B} (m : DB A) (k : A -> DB B) : DB B :=
  fun s b =>
    match m s b with
    | (s', b', Some a) => k a s' b'
    | (s', b', None) => (s', b', None)
    end.

Notation "x <- m ;; k" := (bind m (fun x => k))
  (at level 61, m at next level, right associativity).
Notation "m ;;; k" := (bind m (fun _ => k))
  (at level 61, right associativity).

Definition dbRead {A} (q : Store -> A) : DB A := fun s b => (s, b, Some (q s)).

Definition dbWrite {A} (w : Store -> Store * A) : DB A :=
  fun s b =>
    match b with
    | Some O => (s, b, None)
    | Some (S n) => let (s', a) := w s in (s', Some n, Some a)
    | None => let (s', a) := w s in (s', None, Some a)
    end.

(** [try { ... } catch (error) { res.status(500).json(...) }]. *)
Definition handler (m : DB Response) : DB Response :=
  fun s b =>
    match m s b with
    | (s', b', None) => (s', b', Some StoreFailure)
    | r => r
    end.

(** Running a handler: the store it leaves and the response it sends. *)
Definition storeAfter {A} (m : DB A) (s : Store) (b : Budget) : Store :=
  fst (fst (m s b)).
Definition responseOf {A} (m : DB A) (s : Store) (b : Budget) : option A :=
  snd (m s b).

(* ================================================================== *)
(** ** Store queries and writes used by the handlers *)
(* ================================================================== *)

Definition inCStatus (st : CommissionStatus) (l : list CommissionStatus) : bool :=
  existsb (CommissionStatus_eqb st) l.
Definition inPStatus (st : PayoutStatus) (l : list PayoutStatus) : bool :=
  existsb (PayoutStatus_eqb st) l.

(** [arr.reduce((sum, x) => sum + Number(f(x)), 0)]. *)
Definition reduce_sum {A} (f : A -> Z) (l : list A) : Z :=
  fold_left (fun sum x => sum + f x) l 0.

(** [prisma.payout.findUnique({ where: { id } })]. *)
Definition payout_findUnique (id : Id) (s : Store) : option Payout :=
  find (fun p => Nat.eqb (p_id p) id) (payouts s).

(** The [payoutCommissions] relation of a payout. *)
Definition payoutCommissions_of (id : Id) (s : Store) : list PayoutCommission :=
  filter (fun pc => Nat.eqb (pc_payoutId pc) id) (payoutCommissions s).

(** [prisma.commission.findMany({ where: { userId, status: { in } } })]. *)
Definition commission_findMany (userId : Id) (statuses : list CommissionStatus)
    (s : Store) : list Commission :=
  filter (fun c => Nat.eqb (c_userId c) userId && inCStatus (c_status c) statuses)
         (commissions s).

(** [prisma.payoutCommission.findMany({ where: { payout: { userId } },
    include: { payout: true } })]: every link row with its payout. *)
Definition payoutCommission_findMany (userId : Id) (s : Store)
    : list (PayoutCommission * Payout) :=
  flat_map (fun pc =>
              match payout_findUnique (pc_payoutId pc) s with
              | Some p => if Nat.eqb (p_userId p) userId then [(pc, p)] else []
              | None => []
              end)
           (payoutCommissions s).

(** [prisma.payout.aggregate({ where: { userId, status: 'PENDING' },
    _sum: { amount: true } })._sum.amount?.toNumber() || 0]. *)
Definition payout_sumPending (userId : Id) (s : Store) : Money :=
  reduce_sum p_amount
    (filter (fun p => Nat.eqb (p_userId p) userId && PayoutStatus_eqb (p_status p) PENDING)
            (payouts s)).

(** [orderBy: { key: 'asc' }].  The query fixes no order among rows with
    equal keys; the model keeps them in table order, and what is stated
    about the rows a request links either assumes distinct keys or does
    not depend on that order. *)
Fixpoint insert_asc {A} (key : A -> Z) (x : A) (l : list A) : list A :=
  match l with
  | [] => [x]
  | y :: l' => if key x <=? key y then x :: l else y :: insert_asc key x l'
  end.

Definition orderBy_asc {A} (key : A -> Z) (l : list A) : list A :=
  fold_right (insert_asc key) [] l.

(** [payoutCommissions: { none: { payout: { status: { in } } } }]. *)
Definition noneLinkedTo (statuses : list PayoutStatus) (s : Store) (c : Commission)
    : bool :=
  forallb (fun pc =>
             negb (Nat.eqb (pc_commissionId pc) (c_id c) &&
                   match payout_findUnique (pc_payoutId pc) s with
                   | Some p => inPStatus (p_status p) statuses
                   | None => false
                   end))
          (payoutCommissions s).

(** The candidate query of createPayout, before ordering. *)
Definition candidateCommissions (userId : Id) (s : Store) : list Commission :=
  filter (fun c => Nat.eqb (c_userId c) userId &&
                   inCStatus (c_status c) [C_APPROVED; C_PENDING] &&
                   noneLinkedTo [APPROVED; PAID] s c)
         (commissions s).

(** [prisma.payout.create({ data: { userId, amount, status: 'PENDING' } })]. *)
Definition payout_create (userId : Id) (amount : Money) (now : Time) : DB Payout :=
  dbWrite (fun s =>
    let payout := mkPayout (nextId s) userId amount PENDING None None None now in
    (mkStore (commissions s) (payouts s ++ [payout]) (payoutCommissions s)
             (S (nextId s)),
     payout)).

(** [prisma.payoutCommission.create({ data: { payoutId, commissionId } })]. *)
Definition payoutCommission_create (payoutId commissionId : Id) : DB unit :=
  dbWrite (fun s =>
    (mkStore (commissions s) (payouts s)
             (payoutCommissions s ++ [mkPayoutCommission (nextId s) payoutId commissionId])
             (S (nextId s)),
     tt)).

(** The [data] object of [prisma.payout.update]; an absent field is [None]. *)
Record UpdateData := mkUpdateData {
  ud_status : PayoutStatus;
  ud_transactionId : option string;
  ud_paidAt : option Time;
  ud_approvedAt : option Time
}.

Definition orElse {A} (new old : option A) : option A :=
  match new with Some _ => new | None => old end.

Definition applyUpdate (d : UpdateData) (p : Payout) : Payout :=
  mkPayout (p_id p) (p_userId p) (p_amount p) (ud_status d)
           (orElse (ud_transactionId d) (p_transactionId p))
           (orElse (ud_approvedAt d) (p_approvedAt p))
           (orElse (ud_paidAt d) (p_paidAt p))
           (p_createdAt p).

(** [prisma.payout.update({ where: { id }, data })]; the handler has
    already found the row, and gets the updated row back. *)
Definition payout_update (id : Id) (d : UpdateData) (existing : Payout) : DB Payout :=
  dbWrite (fun s =>
    (mkStore (commissions s)
             (map (fun p => if Nat.eqb (p_id p) id then applyUpdate d p else p)
                  (payouts s))
             (payoutCommissions s) (nextId s),
     applyUpdate d existing)).

Definition setCommissionStatus (st : CommissionStatus) (c : Commission) : Commission :=
  mkCommission (c_id c) (c_orderId c) (c_userId c) (c_amount c) st (c_createdAt c).

(** [prisma.commission.updateMany({ where: { id: { in: ids } },
    data: { status } })]. *)
Definition commission_updateMany (ids : list Id) (st : CommissionStatus) : DB unit :=
  dbWrite (fun s =>
    (mkStore (map (fun c => if existsb (Nat.eqb (c_id c)) ids
                            then setCommissionStatus st c else c)
                  (commissions s))
             (payouts s) (payoutCommissions s) (nextId s),
     tt)).

(** [prisma.payoutCommission.deleteMany({ where: { payoutId } })]. *)
Definition payoutCommission_deleteMany (payoutId : Id) : DB unit :=
  dbWrite (fun s =>
    (mkStore (commissions s) (payouts s)
             (filter (fun pc => negb (Nat.eqb (pc_payoutId pc) payoutId))
                     (payoutCommissions s))
             (nextId s),
     tt)).

(* ================================================================== *)
(** ** Available balance

    The computation createPayout and the agent dashboard both inline
    (the spec's computeAvailableBalance); the local names are the
    source's. *)
(* ================================================================== *)

Definition isProcessed (pcp : PayoutCommission * Payout) : bool :=
  PayoutStatus_eqb (p_status (snd pcp)) APPROVED ||
  PayoutStatus_eqb (p_status (snd pcp)) PAID.

Definition isPending (pcp : PayoutCommission * Payout) : bool :=
  PayoutStatus_eqb (p_status (snd pcp)) PENDING.

(** [allCommissions.find(c => c.id === pc.commissionId)], then
    [commission ? Number(commission.amount) : 0]. *)
Definition linkedCommissionAmount (allCommissions : list Commission)
    (pcp : PayoutCommission * Payout) : Money :=
  match find (fun c => Nat.eqb (c_id c) (pc_commissionId (fst pcp))) allCommissions with
  | Some commission => c_amount commission
  | None => 0
  end.

Definition computeAvailableBalance (userId : Id) (s : Store) : Money :=
  let allCommissions := commission_findMany userId [C_PENDING; C_APPROVED; C_PAID] s in
  let allPayoutCommissions := payoutCommission_findMany userId s in
  let totalCommissionValue := reduce_sum c_amount allCommissions in
  let usedInProcessedPayouts :=
    reduce_sum (fun pcp => p_amount (snd pcp)) (filter isProcessed allPayoutCommissions) in
  let totalPendingAmount := payout_sumPending userId s in
  let valueOfCommissionsInPendingPayouts :=
    reduce_sum (linkedCommissionAmount allCommissions)
               (filter isPending allPayoutCommissions) in
  let effectivePendingUsage :=
    Z.min valueOfCommissionsInPendingPayouts totalPendingAmount in
  let totalUsedValue := usedInProcessedPayouts + effectivePendingUsage in
  Z.max 0 (totalCommissionValue - totalUsedValue).

(* ================================================================== *)
(** ** createPayout *)
(* ================================================================== *)

(** The linking loop:
    [for (const commission of availableCommissions) {
       if (remainingAmount <= 0) break; ... }]. *)
Fixpoint linkCommissions (payoutId : Id) (availableCommissions : list Commission)
    (remainingAmount : Money) : DB unit :=
  match availableCommissions with
  | [] => ret tt
  | commission :: rest =>
      if remainingAmount <=? 0 then ret tt
      else
        let commissionAmount := c_amount commission in
        let amountToLink := Z.min commissionAmount remainingAmount in
        payoutCommission_create payoutId (c_id commission) ;;;
        linkCommissions payoutId rest (remainingAmount - amountToLink)
  end.

(** The revision in use.  The values it recomputes between creating the
    payout and selecting the candidates (the ...ForLinking constants)
    are never used and are not reproduced. *)
Definition createPayout (userId : Id) (amount : Money) (now : Time) : DB Response :=
  handler (
    if amount <=? 0 then ret ValidAmountRequired
    else if amount <? minimumPayoutThreshold then ret BelowMinimumThreshold
    else
      totalAvailableCommission <- dbRead (computeAvailableBalance userId) ;;
      if amount >? totalAvailableCommission then ret InsufficientBalance
      else
        payout <- payout_create userId amount now ;;
        availableCommissions <-
          dbRead (fun s => orderBy_asc c_amount (candidateCommissions userId s)) ;;
        linkCommissions (p_id payout) availableCommissions amount ;;;
        ret (Res 201 (PayoutJson payout))).

Module Legacy.

(** The older revision: no threshold, the balance is the value of the
    candidate commissions, and candidates are taken oldest first. *)
Definition createPayout (userId : Id) (amount : Money) (now : Time) : DB Response :=
  handler (
    if amount <=? 0 then ret ValidAmountRequired
    else
      availableCommissions <-
        dbRead (fun s => orderBy_asc c_createdAt (candidateCommissions userId s)) ;;
      let totalAvailableCommission := reduce_sum c_amount availableCommissions in
      if amount >? totalAvailableCommission then ret InsufficientBalance
      else
        payout <- payout_create userId amount now ;;
        linkCommissions (p_id payout) availableCommissions amount ;;;
        ret (Res 201 (PayoutJson payout))).

End Legacy.

(* ================================================================== *)
(** ** updatePayoutStatus *)
(* ================================================================== *)

(** [['PENDING', 'APPROVED', 'PAID', 'REJECTED'].includes(status)]. *)
Definition PayoutStatus_of_string (status : string) : option PayoutStatus :=
  if String.eqb status "PENDING" then Some PENDING
  else if String.eqb status "APPROVED" then Some APPROVED
  else if String.eqb status "PAID" then Some PAID
  else if String.eqb status "REJECTED" then Some REJECTED
  else None.

(** [if (transactionId) updateData.transactionId = transactionId]: an
    absent or empty transaction id is not recorded. *)
Definition truthy (transactionId : option string) : option string :=
  match transactionId with
  | Some EmptyString => None
  | other => other
  end.

Definition updateDataFor (status : PayoutStatus) (transactionId : option string)
    (now : Time) : UpdateData :=
  mkUpdateData status (truthy transactionId)
    (if PayoutStatus_eqb status PAID then Some now else None)
    (if PayoutStatus_eqb status APPROVED then Some now else None).

Definition updatePayoutStatus (id : Id) (status : string)
    (transactionId : option string) (now : Time) : DB Response :=
  handler (
    match PayoutStatus_of_string status with
    | None => ret InvalidStatus
    | Some status =>
        existingPayout <- dbRead (payout_findUnique id) ;;
        match existingPayout with
        | None => ret NotFound
        | Some existingPayout =>
            linked <- dbRead (payoutCommissions_of id) ;;
            let updateData := updateDataFor status transactionId now in
            payout <- payout_update id updateData existingPayout ;;
            let commissionIds := map pc_commissionId linked in
            (if PayoutStatus_eqb status APPROVED || PayoutStatus_eqb status PAID then
               commission_updateMany commissionIds C_PAID
             else if PayoutStatus_eqb status REJECTED then
               (if PayoutStatus_eqb (p_status existingPayout) APPROVED ||
                   PayoutStatus_eqb (p_status existingPayout) PAID
                then commission_updateMany commissionIds C_APPROVED
                else ret tt) ;;;
               payoutCommission_deleteMany id
             else ret tt) ;;;
            ret (Res 200 (PayoutJson payout))
        end
    end).

(* ================================================================== *)
(** ** Scenario stores *)
(* ================================================================== *)

Definition agent : Id := 1%nat.

(** Three APPROVED commissions of 20, 30 and 40 created in that order. *)
Definition store_20_30_40 : Store :=
  mkStore [ mkCommission 1 101 agent (units 20) C_APPROVED 1000;
            mkCommission 2 102 agent (units 30) C_APPROVED 2000;
            mkCommission 3 103 agent (units 40) C_APPROVED 3000 ]
          [] [] 10.

(* ================================================================== *)
(** ** What the handlers do on a store that never fails *)
(* ================================================================== *)

(** The commissions the linking loop links, in order. *)
Fixpoint linked (availableCommissions : list Commission) (remainingAmount : Money)
    : list Commission :=
  match availableCommissions with
  | [] => []
  | commission :: rest =>
      if remainingAmount <=? 0 then []
      else commission ::
           linked rest (remainingAmount - Z.min (c_amount commission) remainingAmount)
  end.

(** The link rows created for [cs], with ids counted from [n]. *)
Fixpoint newLinks (payoutId : Id) (n : Id) (cs : list Commission)
    : list PayoutCommission :=
  match cs with
  | [] => []
  | c :: rest => mkPayoutCommission n payoutId (c_id c) :: newLinks payoutId (S n) rest
  end.

Definition newPayout (userId : Id) (amount : Money) (now : Time) (s : Store) : Payout :=
  mkPayout (nextId s) userId amount PENDING None None None now.

Definition withPayout (payout : Payout) (s : Store) : Store :=
  mkStore (commissions s) (payouts s ++ [payout]) (payoutCommissions s) (S (nextId s)).

Definition withLinks (payoutId : Id) (cs : list Commission) (s : Store) : Store :=
  mkStore (commissions s) (payouts s)
          (payoutCommissions s ++ newLinks payoutId (nextId s) cs)
          (List.length cs + nextId s).

(** The store a successful createPayout leaves, given its ordered
    candidates. *)
Definition requested (userId : Id) (amount : Money) (now : Time)
    (availableCommissions : list Commission) (s : Store) : Store :=
  withLinks (nextId s) (linked availableCommissions amount)
            (withPayout (newPayout userId amount now s) s).

Definition markCommissions (ids : list Id) (st : CommissionStatus)
    (cs : list Commission) : list Commission :=
  map (fun c => if existsb (Nat.eqb (c_id c)) ids then setCommissionStatus st c else c) cs.

(** The store a successful updatePayoutStatus leaves. *)
Definition resolved (id : Id) (status : PayoutStatus) (transactionId : option string)
    (now : Time) (existingPayout : Payout) (s : Store) : Store :=
  let commissionIds := map pc_commissionId (payoutCommissions_of id s) in
  mkStore
    (match status with
     | APPROVED | PAID => markCommissions commissionIds C_PAID (commissions s)
     | REJECTED =>
         match p_status existingPayout with
         | APPROVED | PAID => markCommissions commissionIds C_APPROVED (commissions s)
         | _ => commissions s
         end
     | PENDING => commissions s
     end)
    (map (fun p => if Nat.eqb (p_id p) id
                   then applyUpdate (updateDataFor status transactionId now) p else p)
         (payouts s))
    (match status with
     | REJECTED => filter (fun pc => negb (Nat.eqb (pc_payoutId pc) id)) (payoutCommissions s)
     | _ => payoutCommissions s
     end)
    (nextId s).


(* ================================================================== *)
(** ** Sequences of calls *)
(* ================================================================== *)

(** The two mutating operations of the ledger: requestPayout is
    [createPayout], resolvePayout is [updatePayoutStatus]. *)
Inductive Call :=
| RequestPayout (userId : Id) (amount : Money) (now : Time)
| ResolvePayout (id : Id) (status : string) (transactionId : option string) (now : Time).

Definition call (c : Call) : DB Response :=
  match c with
  | RequestPayout userId amount now => createPayout userId amount now
  | ResolvePayout id status transactionId now =>
      updatePayoutStatus id status transactionId now
  end.

(** The store after a sequence of calls, none of which meets a store
    failure. *)
Definition runCalls (calls : list Call) (s : Store) : Store :=
  fold_left (fun s c => storeAfter (call c) s None) calls s.

(** The store after the agent of [store_20_30_40] requested 50 and the
    request (payout 10, linked to the commissions of 20 and 30) was
    approved, then paid. *)
Definition store_requested : Store :=
  runCalls [RequestPayout agent (units 50) 5000] store_20_30_40.
Definition store_approved : Store :=
  runCalls [ResolvePayout 10 "APPROVED" None 6000] store_requested.
Definition store_paid : Store :=
  runCalls [ResolvePayout 10 "PAID" (Some "tx-1") 7000] store_approved.

(* ================================================================== *)
(** ** The spec's payout state machine *)
(* ================================================================== *)

(** PENDING -> APPROVED | REJECTED;  APPROVED -> PAID | REJECTED. *)
Definition allowedTransition (from to : PayoutStatus) : bool :=
  match from, to with
  | PENDING, APPROVED | PENDING, REJECTED
  | APPROVED, PAID | APPROVED, REJECTED => true
  | _, _ => false
  end.

(* ================================================================== *)
(** ** Vocabulary of the statements *)
(* ================================================================== *)

(** [cs'] is [cs] with the status of the commissions whose id is in
    [ids] set to [st] and nothing else changed. *)
Definition statusSetOn (ids : list Id) (st : CommissionStatus)
    (cs cs' : list Commission) : Prop :=
  Forall2 (fun c c' =>
             c_id c' = c_id c /\ c_orderId c' = c_orderId c /\
             c_userId c' = c_userId c /\ c_amount c' = c_amount c /\
             c_createdAt c' = c_createdAt c /\
             (In (c_id c) ids -> c_status c' = st) /\
             (~ In (c_id c) ids -> c' = c))
          cs cs'.

(** The links of payout [id] are gone in [s'] and the links of every
    other payout are those of [s]. *)
Definition linksReleased (id : Id) (s s' : Store) : Prop :=
  payoutCommissions_of id s' = [] /\
  forall pc, pc_payoutId pc <> id ->
             (In pc (payoutCommissions s') <-> In pc (payoutCommissions s)).

(** Payout [p'] is [p] up to the fields updatePayoutStatus may write. *)
Definition sameUpToResolution (p p' : Payout) : Prop :=
  p_id p' = p_id p /\ p_userId p' = p_userId p /\
  p_amount p' = p_amount p /\ p_createdAt p' = p_createdAt p.

(* ================================================================== *)
(** ** The balance formula as the spec words it *)
(* ================================================================== *)

(** The amount of the commission a link row points to. *)
Definition commissionAmountOf (commissionId : Id) (s : Store) : Money :=
  match find (fun c => Nat.eqb (c_id c) commissionId) (commissions s) with
  | Some c => c_amount c
  | None => 0
  end.

(** max(0, totalEarned - usedByProcessed - min(pendingAllocatedValue,
    pendingRequestedTotal)) with usedByProcessed the sum of Payout.amount
    over the agent's APPROVED and PAID payouts, each payout counted
    once. *)
Definition spec_availableBalance (userId : Id) (s : Store) : Money :=
  let totalEarned :=
    reduce_sum c_amount (commission_findMany userId [C_PENDING; C_APPROVED; C_PAID] s) in
  let usedByProcessed :=
    reduce_sum p_amount
      (filter (fun p => Nat.eqb (p_userId p) userId &&
                        inPStatus (p_status p) [APPROVED; PAID])
              (payouts s)) in
  let pendingAllocatedValue :=
    reduce_sum (fun pcp => commissionAmountOf (pc_commissionId (fst pcp)) s)
               (filter isPending (payoutCommission_findMany userId s)) in
  let pendingRequestedTotal := payout_sumPending userId s in
  Z.max 0 (totalEarned - usedByProcessed
           - Z.min pendingAllocatedValue pendingRequestedTotal).

(* ================================================================== *)
(** ** Allocation order *)
(* ================================================================== *)






(* ================================================================== *)
(** ** Allocation of a commission *)
(* ================================================================== *)

(** The link rows of a commission. *)
Definition linksOf (commissionId : Id) (s : Store) : list PayoutCommission :=
  filter (fun pc => Nat.eqb (pc_commissionId pc) commissionId) (payoutCommissions s).

(** The commission has a link to a payout whose status is APPROVED or
    PAID. *)
Definition linkedToProcessed (commissionId : Id) (s : Store) : bool :=
  existsb (fun pc =>
             Nat.eqb (pc_commissionId pc) commissionId &&
             match payout_findUnique (pc_payoutId pc) s with
             | Some p => inPStatus (p_status p) [APPROVED; PAID]
             | None => false
             end)
          (payoutCommissions s).

(** Commission [c] is linked to the two distinct non-REJECTED payouts
    [p1] and [p2], which together withdraw more than its amount. *)
Definition claimedTwice (s : Store) (c : Commission) (p1 p2 : Payout) : Prop :=
  In c (commissions s) /\ In p1 (payouts s) /\ In p2 (payouts s) /\
  p_id p1 <> p_id p2 /\ p_status p1 <> REJECTED /\ p_status p2 <> REJECTED /\
  In (p_id p1) (map pc_payoutId (linksOf (c_id c) s)) /\
  In (p_id p2) (map pc_payoutId (linksOf (c_id c) s)) /\
  c_amount c < p_amount p1 + p_amount p2.

(** Two APPROVED commissions of 50 and 100. *)
Definition store_50_100 : Store :=
  mkStore [ mkCommission 1 101 agent (units 50) C_APPROVED 1000;
            mkCommission 2 102 agent (units 100) C_APPROVED 2000 ]
          [] [] 10.

(** The agent requests 50 (payout 10, linked to commission 1), then 100
    (payout 12, linked to commissions 1 and 2). *)
Definition store_two_requests : Store :=
  runCalls [RequestPayout agent (units 50) 5000; RequestPayout agent (units 100) 5100]
           store_50_100.

(** An APPROVED commission of 60 of the agent, and a smaller one of 10
    that belongs to agent 2. *)
Definition store_two_agents : Store :=
  mkStore [ mkCommission 1 101 agent (units 60) C_APPROVED 1000;
            mkCommission 2 102 2 (units 10) C_APPROVED 2000 ]
          [] [] 10.

(** The store [s'] is [s] with link rows added for commissions of
    [cands], and possibly payout rows added; commissions are untouched. *)
Definition linksAdded (cands : list Commission) (s s' : Store) : Prop :=
  commissions s' = commissions s /\
  exists extra,
    payoutCommissions s' = payoutCommissions s ++ extra /\
    Forall (fun pc => In (pc_commissionId pc) (map c_id cands)) extra.

(* ================================================================== *)
(** ** Conservation *)
(* ================================================================== *)

(** The agent's total earned commission amount: the commissions the
    balance counts (status PENDING, APPROVED or PAID). *)
Definition totalEarned (userId : Id) (s : Store) : Money :=
  reduce_sum c_amount (commission_findMany userId [C_PENDING; C_APPROVED; C_PAID] s).

Definition isActive (pcp : PayoutCommission * Payout) : bool :=
  negb (PayoutStatus_eqb (p_status (snd pcp)) REJECTED).

(** The sum of the amounts of the commissions linked to the agent's
    non-REJECTED payouts, one term per PayoutCommission row. *)
Definition linkedActiveValue (userId : Id) (s : Store) : Money :=
  reduce_sum (fun pcp => commissionAmountOf (pc_commissionId (fst pcp)) s)
             (filter isActive (payoutCommission_findMany userId s)).

(** The commission is linked to at least one non-REJECTED payout of the
    agent. *)
Definition linkedToActive (userId : Id) (s : Store) (c : Commission) : bool :=
  existsb (fun pcp => Nat.eqb (pc_commissionId (fst pcp)) (c_id c) && isActive pcp)
          (payoutCommission_findMany userId s).

(** The same sum with every commission counted once, however many of
    the agent's non-REJECTED payouts it is linked to.  The commissions
    are taken from the whole table: a commission of another agent that is
    linked to one of the agent's payouts counts as well. *)
Definition distinctLinkedActiveValue (userId : Id) (s : Store) : Money :=
  reduce_sum c_amount (filter (linkedToActive userId s) (commissions s)).

(** Commission ids are a primary key and amounts are not negative. *)
Definition commissionsWellFormed (s : Store) : Prop :=
  NoDup (map c_id (commissions s)) /\
  Forall (fun c => 0 <= c_amount c) (commissions s).

(** Every link row whose payout exists points to commissions of that
    payout's agent, none of them BLOCKED. *)
Definition linksOwned (s : Store) : Prop :=
  forall pc p c,
    In pc (payoutCommissions s) ->
    payout_findUnique (pc_payoutId pc) s = Some p ->
    In c (commissions s) -> c_id c = pc_commissionId pc ->
    c_userId c = p_userId p /\ c_status c <> C_BLOCKED.

(* ================================================================== *)
(** ** Balance before and after *)
(* ================================================================== *)

(** The ids the next rows will get are not in use: no payout has one,
    and no link row points to one. *)
Definition idsFresh (s : Store) : Prop :=
  Forall (fun p => (p_id p < nextId s)%nat) (payouts s) /\
  Forall (fun pc => (pc_payoutId pc < nextId s)%nat) (payoutCommissions s).

(** What every sequence of calls preserves. *)
Definition ledgerInvariant (s : Store) : Prop :=
  commissionsWellFormed s /\ idsFresh s /\ linksOwned s.

(** The value of the commissions linked to the agent's PENDING payouts,
    as the balance computes it
    ([valueOfCommissionsInPendingPayouts]). *)
Definition pendingLinkedValue (userId : Id) (s : Store) : Money :=
  reduce_sum
    (linkedCommissionAmount (commission_findMany userId [C_PENDING; C_APPROVED; C_PAID] s))
    (filter isPending (payoutCommission_findMany userId s)).

(** Two commission rows that differ at most by a status, and whose
    statuses the ledger treats alike: both or neither counted as earned,
    both or neither eligible as candidates. *)
Definition sameClass (c c' : Commission) : Prop :=
  c_id c' = c_id c /\ c_userId c' = c_userId c /\ c_amount c' = c_amount c /\
  c_createdAt c' = c_createdAt c /\
  inCStatus (c_status c') [C_APPROVED; C_PENDING] =
    inCStatus (c_status c) [C_APPROVED; C_PENDING] /\
  inCStatus (c_status c') [C_PENDING; C_APPROVED; C_PAID] =
    inCStatus (c_status c) [C_PENDING; C_APPROVED; C_PAID].

(** Two stores the balance and the candidate query cannot tell apart. *)
Definition ledgerEquivalent (s s' : Store) : Prop :=
  Forall2 sameClass (commissions s) (commissions s') /\
  payoutCommissions s' = payoutCommissions s /\
  (forall pc, In pc (payoutCommissions s) ->
     payout_findUnique (pc_payoutId pc) s' = payout_findUnique (pc_payoutId pc) s) /\
  (forall userId, payout_sumPending userId s' = payout_sumPending userId s).

(** The amount the balance takes as used by APPROVED and PAID payouts
    ([usedInProcessedPayouts]). *)
Definition usedInProcessedPayouts (userId : Id) (s : Store) : Money :=
  reduce_sum (fun pcp => p_amount (snd pcp))
             (filter isProcessed (payoutCommission_findMany userId s)).




(* ================================================================== *)
(** ** Further handlers of the controller: replies *)
(* ================================================================== *)

(** [res.status(code).json(value)] for the handlers that answer with
    something else than a payout, and
    [res.status(code).json({ message })]. *)
Inductive Reply (A : Type) :=
| Json (code : Z) (value : A)
| Failure (code : Z) (message : string).
Arguments Json {A} code value.
Arguments Failure {A} code message.

(** The try/catch of these handlers. *)
Definition guarded {A} (m : DB (Reply A)) : DB (Reply A) :=
  fun s b =>
    match m s b with
    | (s', b', None) => (s', b', Some (Failure 500 "Internal server error"))
    | r => r
    end.

(* ================================================================== *)
(** ** updateCommissionStatus *)
(* ================================================================== *)

(** [['PENDING', 'APPROVED', 'PAID', 'BLOCKED'].includes(status)]. *)
Definition CommissionStatus_of_string (status : string) : option CommissionStatus :=
  if String.eqb status "PENDING" then Some C_PENDING
  else if String.eqb status "APPROVED" then Some C_APPROVED
  else if String.eqb status "PAID" then Some C_PAID
  else if String.eqb status "BLOCKED" then Some C_BLOCKED
  else None.

Definition commission_findUnique (id : Id) (s : Store) : option Commission :=
  find (fun c => Nat.eqb (c_id c) id) (commissions s).

(** [prisma.commission.update({ where: { id }, data: { status } })]: the
    ORM throws when no row has the id; otherwise the row is written and
    returned. *)
Definition commission_update (id : Id) (st : CommissionStatus) : DB Commission :=
  fun s b =>
    match commission_findUnique id s with
    | None => (s, b, None)
    | Some c =>
        dbWrite (fun s =>
          (mkStore (map (fun c => if Nat.eqb (c_id c) id
                                  then setCommissionStatus st c else c)
                        (commissions s))
                   (payouts s) (payoutCommissions s) (nextId s),
           setCommissionStatus st c)) s b
    end.

Definition updateCommissionStatus (id : Id) (status : string) : DB (Reply Commission) :=
  guarded (
    match CommissionStatus_of_string status with
    | None => ret (Failure 400 "Invalid commission status")
    | Some status =>
        commission <- commission_update id status ;;
        ret (Json 200 commission)
    end).

(* ================================================================== *)
(** ** getAgentPayouts and getAgentDashboardMetrics *)
(* ================================================================== *)

(** [orderBy: { key: 'desc' }]. *)
Definition orderBy_desc {A} (key : A -> Z) (l : list A) : list A :=
  orderBy_asc (fun x => - key x) l.

(** [prisma.payout.findMany({ where: { userId },
    orderBy: { createdAt: 'desc' } })]. *)
Definition getAgentPayouts (userId : Id) : DB (Reply (list Payout)) :=
  guarded (
    payouts <- dbRead (fun s =>
      orderBy_desc p_createdAt
        (filter (fun p => Nat.eqb (p_userId p) userId) (payouts s))) ;;
    ret (Json 200 payouts)).

Inductive OrderStatus := O_PENDING | O_CONFIRMED | O_SHIPPED | O_DELIVERED | O_CANCELLED.

(** The columns of Order the dashboard reads. *)
Record Order := mkOrder {
  o_id : Id;
  o_agentId : option Id;
  o_totalPrice : Money;
  o_status : OrderStatus
}.

Definition isCompleted (o : Order) : bool :=
  match o_status o with
  | O_CONFIRMED | O_SHIPPED | O_DELIVERED => true
  | _ => false
  end.

Definition referredBy (userId : Id) (o : Order) : bool :=
  match o_agentId o with
  | Some a => Nat.eqb a userId
  | None => false
  end.

Record AgentDashboard := mkAgentDashboard {
  totalReferrals : nat;
  totalSales : Money;
  totalCommission : Money;
  pendingPayouts : nat;
  totalEarnings : Money
}.

(** getAgentDashboardMetrics of the revision in use; the Order table is
    only read and is passed in.  The local names are the source's. *)
Definition getAgentDashboardMetrics (userId : Id) (orders : list Order) (s : Store)
    : AgentDashboard :=
  let totalReferrals := List.length (filter (referredBy userId) orders) in
  let totalSales :=
    reduce_sum o_totalPrice
      (filter (fun o => referredBy userId o && isCompleted o) orders) in
  let allCommissions := commission_findMany userId [C_PENDING; C_APPROVED; C_PAID] s in
  let allPayoutCommissions := payoutCommission_findMany userId s in
  let totalCommissionEarned := reduce_sum c_amount allCommissions in
  let totalPaidOutAmount :=
    reduce_sum (fun pcp => p_amount (snd pcp)) (filter isProcessed allPayoutCommissions) in
  let totalPendingAmount := payout_sumPending userId s in
  let valueOfCommissionsInPendingPayouts :=
    reduce_sum (linkedCommissionAmount allCommissions)
               (filter isPending allPayoutCommissions) in
  let effectivePendingUsage :=
    Z.min valueOfCommissionsInPendingPayouts totalPendingAmount in
  let totalCommission :=
    Z.max 0 (totalCommissionEarned - totalPaidOutAmount - effectivePendingUsage) in
  let pendingPayouts :=
    List.length (filter (fun p => Nat.eqb (p_userId p) userId &&
                                  PayoutStatus_eqb (p_status p) PENDING)
                        (payouts s)) in
  let totalEarnings :=
    reduce_sum p_amount
      (filter (fun p => Nat.eqb (p_userId p) userId &&
                        inPStatus (p_status p) [APPROVED; PAID])
              (payouts s)) in
  mkAgentDashboard totalReferrals totalSales totalCommission pendingPayouts
                   totalEarnings.


(* ================================================================== *)
(** ** Authentication middleware and the payout routes *)
(* ================================================================== *)

Inductive Role := ADMIN | AGENT.

(** The columns of User the middleware reads. *)
Record User := mkUser {
  u_id : Id;
  u_email : string;
  u_role : Role;
  u_isActive : bool
}.

Inductive TokenRole := T_ADMIN | T_AGENT | T_CUSTOMER.

Record JwtPayload := mkJwtPayload {
  jwt_userId : Id;
  jwt_email : string;
  jwt_role : TokenRole
}.

Record Cookies := mkCookies {
  accessToken : option string;
  refreshToken : option string
}.

Record Request := mkRequest {
  req_cookies : option Cookies;
  req_authorization : option string
}.

Inductive TokenType := access | refresh.

(** [req.cookies && req.cookies.accessToken] (or refreshToken): an
    absent or empty cookie gives null. *)
Definition extractTokenFromCookies (req : Request) (tokenType : TokenType)
    : option string :=
  match req_cookies req with
  | None => None
  | Some cookies =>
      match tokenType with
      | access => truthy (accessToken cookies)
      | refresh => truthy (refreshToken cookies)
      end
  end.

(** [authHeader.startsWith('Bearer ')] then [authHeader.substring(7)]. *)
Definition extractTokenFromHeader (req : Request) : option string :=
  match req_authorization req with
  | Some authHeader =>
      if String.prefix "Bearer " authHeader
      then Some (String.substring 7 (String.length authHeader - 7) authHeader)
      else None
  | None => None
  end.

(** What the middleware attaches to the request. *)
Record AuthUser := mkAuthUser {
  au_userId : Id;
  au_email : string;
  au_role : Role
}.

(** A middleware either answers itself or calls [next()]. *)
Inductive Gate (A : Type) :=
| Next (a : A)
| Denied (code : Z) (message : string).
Arguments Next {A} a.
Arguments Denied {A} code message.

Definition user_findUnique (id : Id) (users : list User) : option User :=
  find (fun u => Nat.eqb (u_id u) id) users.

(** What [prisma.user.findUnique] meets when the middleware runs: the
    user table, or nothing when the query throws (the database cannot be
    reached). *)
Definition UserTable := option (list User).

(** requireAuth; [verifyAccessToken] is [jwt.verify] with the access
    secret, null when verification throws, and is taken as given.  The
    whole body is in a try block whose catch answers 500; the user
    lookup is the statement of it that can throw. *)
Definition requireAuth (verifyAccessToken : string -> option JwtPayload)
    (users : UserTable) (req : Request) : Gate AuthUser :=
  match extractTokenFromCookies req access with
  | None => Denied 401 "Access token not provided"
  | Some token =>
      match verifyAccessToken token with
      | None => Denied 403 "Invalid or expired access token"
      | Some payload =>
          match users with
          | None => Denied 500 "Internal server error"
          | Some users =>
              match user_findUnique (jwt_userId payload) users with
              | None => Denied 403 "User not found or inactive"
              | Some user =>
                  if negb (u_isActive user)
                  then Denied 403 "User not found or inactive"
                  else Next (mkAuthUser (u_id user) (u_email user) (u_role user))
              end
          end
      end
  end.

(** requireAdmin and requireAgent await requireAuth, which has answered
    already when it does not call its continuation. *)
Definition requireAdmin (verifyAccessToken : string -> option JwtPayload)
    (users : UserTable) (req : Request) : Gate AuthUser :=
  match requireAuth verifyAccessToken users req with
  | Next user =>
      match au_role user with
      | ADMIN => Next user
      | _ => Denied 403 "Access denied. Admin role required."
      end
  | denied => denied
  end.

Definition requireAgent (verifyAccessToken : string -> option JwtPayload)
    (users : UserTable) (req : Request) : Gate AuthUser :=
  match requireAuth verifyAccessToken users req with
  | Next user =>
      match au_role user with
      | AGENT => Next user
      | _ => Denied 403 "Access denied. Agent role required."
      end
  | denied => denied
  end.

(** [router.post('/payouts', requireAgent, createPayout)]: the handler
    takes the agent from [req.user.userId]. *)
Definition post_agent_payouts (verifyAccessToken : string -> option JwtPayload)
    (users : UserTable) (req : Request) (amount : Money) (now : Time) : DB Response :=
  match requireAgent verifyAccessToken users req with
  | Next user => createPayout (au_userId user) amount now
  | Denied code message => ret (Res code (Message message))
  end.

(** [router.patch('/payouts/:id/status', requireAdmin,
    updatePayoutStatus)]. *)
Definition patch_payout_status (verifyAccessToken : string -> option JwtPayload)
    (users : UserTable) (req : Request) (id : Id) (status : string)
    (transactionId : option string) (now : Time) : DB Response :=
  match requireAdmin verifyAccessToken users req with
  | Next _ => updatePayoutStatus id status transactionId now
  | Denied code message => ret (Res code (Message message))
  end.

(** updateAgentStatus: [prisma.user.update({ where: { id },
    data: { isActive } })], which throws when no user has the id. *)
Definition updateAgentStatus (id : Id) (isActive : bool) (users : list User)
    : list User * Reply User :=
  match user_findUnique id users with
  | None => (users, Failure 500 "Internal server error")
  | Some user =>
      (map (fun u => if Nat.eqb (u_id u) id
                     then mkUser (u_id u) (u_email u) (u_role u) isActive else u)
           users,
       Json 200 (mkUser (u_id user) (u_email user) (u_role user) isActive))
  end.

(** The store [s'] is [s] with link rows added that all belong to payout
    [payoutId] and point to commissions of [cands]; commissions are
    untouched. *)
Definition linksAddedTo (payoutId : Id) (cands : list Commission) (s s' : Store)
    : Prop :=
  commissions s' = commissions s /\
  exists extra,
    payoutCommissions s' = payoutCommissions s ++ extra /\
    Forall (fun pc => pc_payoutId pc = payoutId /\
                      In (pc_commissionId pc) (map c_id cands)) extra.

(** A link row of the payout being created that points to a commission
    of the requesting agent which is PENDING or APPROVED and has no link
    to an APPROVED or PAID payout. *)
Definition eligibleLink (userId : Id) (s : Store) (pc : PayoutCommission) : Prop :=
  pc_payoutId pc = nextId s /\
  exists c, In c (commissions s) /\ c_id c = pc_commissionId pc /\
            c_userId c = userId /\
            (c_status c = C_PENDING \/ c_status c = C_APPROVED) /\
            linkedToProcessed (c_id c) s = false.

(** The agent's payouts that are PENDING, and those that are APPROVED or
    PAID, as the dashboard selects them. *)
Definition pendingOf (userId : Id) (p : Payout) : bool :=
  Nat.eqb (p_userId p) userId && PayoutStatus_eqb (p_status p) PENDING.
Definition processedOf (userId : Id) (p : Payout) : bool :=
  Nat.eqb (p_userId p) userId && inPStatus (p_status p) [APPROVED; PAID].

(** No payout has the id the next row will get. *)
Definition payoutIdsFresh (s : Store) : Prop :=
  Forall (fun p => (p_id p < nextId s)%nat) (payouts s).


(** The request carries an access-token cookie that verifies to a
    payload naming the active user [user] of the table. *)
Definition authenticatedAs (verifyAccessToken : string -> option JwtPayload)
    (users : list User) (req : Request) (user : User) : Prop :=
  exists token payload,
    extractTokenFromCookies req access = Some token /\ token <> "" /\
    verifyAccessToken token = Some payload /\
    user_findUnique (jwt_userId payload) users = Some user /\
    u_id user = jwt_userId payload /\
    u_isActive user = true.

(** A user table and a token verifier for the scenarios: user 1 is an
    active agent, user 9 an active admin; "tok-1" and "tok-9" are the
    tokens that verify, to payloads naming them. *)
Definition scenario_users : list User :=
  [ mkUser 1 "agent@example.com" AGENT true;
    mkUser 9 "admin@example.com" ADMIN true ].

Definition scenario_verify (token : string) : option JwtPayload :=
  if String.eqb token "tok-1" then Some (mkJwtPayload 1 "agent@example.com" T_AGENT)
  else if String.eqb token "tok-9" then Some (mkJwtPayload 9 "admin@example.com" T_ADMIN)
  else None.

Definition request_with (token : string) : Request :=
  mkRequest (Some (mkCookies (Some token) None)) None.

(* ================================================================== *)
(** ** Sequences that also edit commission statuses *)
(* ================================================================== *)

Inductive LedgerCall :=
| PayoutCall (c : Call)
| CommissionStatusCall (id : Id) (status : string).

Definition ledgerCall (c : LedgerCall) (s : Store) : Store :=
  match c with
  | PayoutCall c => storeAfter (call c) s None
  | CommissionStatusCall id status =>
      storeAfter (updateCommissionStatus id status) s None
  end.

Definition runLedgerCalls (calls : list LedgerCall) (s : Store) : Store :=
  fold_left (fun s c => ledgerCall c s) calls s.

(** The call does not set a commission to BLOCKED. *)
Definition blocksNothing (c : LedgerCall) : Prop :=
  match c with
  | CommissionStatusCall _ status =>
      CommissionStatus_of_string status <> Some C_BLOCKED
  | PayoutCall _ => True
  end.

(* ================================================================== *)
(** ** Amounts on which the handlers' doubles are exact *)
(* ================================================================== *)

(** The handlers turn every DECIMAL into a double with [Number(...)] and
    add, subtract and compare doubles.  Doubles represent the whole
    numbers up to 2^53 exactly, and add and subtract them exactly as long
    as the results stay in that range; on amounts with cents they round
    (0.01 + 50.01 gives 50.019999999999996).  [exactAmounts amount s]
    says that the requested amount and every amount stored in [s] is a
    whole number of currency units, and bounds them so that no sum a
    handler forms over the rows of [s], or over those rows and the rows a
    request for [amount] adds, leaves the exact range: such a sum has at
    most one term for every commission row and link row, and no term is
    larger than [magnitude s] or [amount].  Where it holds, the handlers
    compute what the model computes. *)
Definition wholeUnits (x : Money) : bool := x mod 100 =? 0.

Definition magnitude (s : Store) : Z :=
  reduce_sum (fun c => Z.abs (c_amount c)) (commissions s) +
  reduce_sum (fun p => Z.abs (p_amount p)) (payouts s).

Definition exactAmounts (amount : Money) (s : Store) : bool :=
  wholeUnits amount &&
  forallb (fun c => wholeUnits (c_amount c)) (commissions s) &&
  forallb (fun p => wholeUnits (p_amount p)) (payouts s) &&
  ((2 + Z.of_nat (List.length (commissions s))
      + Z.of_nat (List.length (payoutCommissions s)))
   * (2 * Z.abs amount + magnitude s) <=? units (2 ^ 53)).

(** A value a double holds exactly, and that is a whole number of
    currency units. *)
Definition exactValue (x : Z) : Prop :=
  wholeUnits x = true /\ Z.abs x <= units (2 ^ 53).

(* ================================================================== *)
(** ** List facts *)
(* ================================================================== *)

Section ListFacts.
Context {A : Type}.

Lemma forallb_ext_in (f g : A -> bool) (l : list A) :
  (forall x, In x l -> f x = g x) -> forallb f l = forallb g l.
Proof.
  induction l as [|x l IH]; intros H; simpl; [reflexivity|].
  rewrite (H x (or_introl eq_refl)), IH; [reflexivity|].
  intros y Hy. apply H. now right.
Qed.

Lemma find_app_l (f : A -> bool) (l1 l2 : list A) :
  find f (l1 ++ l2) =
  match find f l1 with Some x => Some x | None => find f l2 end.
Proof.
  induction l1 as [|x l1 IH]; simpl; [reflexivity|].
  now destruct (f x).
Qed.

Lemma reduce_sum_from (f : A -> Z) (l : list A) (acc : Z) :
  fold_left (fun sum x => sum + f x) l acc = acc + reduce_sum f l.
Proof.
  unfold reduce_sum. revert acc.
  induction l as [|x l IH]; intros acc; simpl; [lia|].
  rewrite (IH (acc + f x)), (IH (f x)). lia.
Qed.


Lemma reduce_sum_cons (f : A -> Z) (x : A) (l : list A) :
  reduce_sum f (x :: l) = f x + reduce_sum f l.
Proof. unfold reduce_sum at 1. simpl. now rewrite reduce_sum_from. Qed.

Lemma reduce_sum_ext (f g : A -> Z) (l : list A) :
  (forall x, f x = g x) -> reduce_sum f l = reduce_sum g l.
Proof.
  intros H. induction l as [|x l IH]; [reflexivity|].
  now rewrite !reduce_sum_cons, IH, H.
Qed.


End ListFacts.

(* ================================================================== *)
(** ** Running the handlers on a store that never fails *)
(* ================================================================== *)

Lemma linkCommissions_run payoutId cands : forall remaining s,
  linkCommissions payoutId cands remaining s None =
  (withLinks payoutId (linked cands remaining) s, None, Some tt).
Proof.
  induction cands as [|c rest IH]; intros remaining s; simpl.
  - unfold ret, withLinks; simpl. rewrite app_nil_r. now destruct s.
  - destruct (remaining <=? 0).
    + unfold ret, withLinks; simpl. rewrite app_nil_r. now destruct s.
    + unfold bind at 1. unfold payoutCommission_create, dbWrite.
      rewrite IH. unfold withLinks; simpl.
      rewrite <- app_assoc. simpl. do 3 f_equal.
      f_equal. lia.
Qed.

Lemma updatePayoutStatus_run id status transactionId now s :
  updatePayoutStatus id status transactionId now s None =
  match PayoutStatus_of_string status with
  | None => (s, None, Some InvalidStatus)
  | Some st =>
      match payout_findUnique id s with
      | None => (s, None, Some NotFound)
      | Some existing =>
          (resolved id st transactionId now existing s, None,
           Some (Res 200 (PayoutJson
                   (applyUpdate (updateDataFor st transactionId now) existing))))
      end
  end.
Proof.
  unfold updatePayoutStatus, handler.
  destruct (PayoutStatus_of_string status) as [st|]; [|reflexivity].
  unfold bind at 1. unfold dbRead at 1.
  destruct (payout_findUnique id s) as [existing|]; [|reflexivity].
  unfold resolved.
  destruct st; destruct (p_status existing); reflexivity.
Qed.

Lemma candidateCommissions_withPayout userId payout s :
  p_status payout = PENDING ->
  candidateCommissions userId (withPayout payout s) = candidateCommissions userId s.
Proof.
  intros Hp. unfold candidateCommissions. apply filter_ext. intros c.
  f_equal. unfold noneLinkedTo. simpl. apply forallb_ext_in. intros pc _.
  do 2 f_equal. unfold payout_findUnique. simpl.
  rewrite find_app_l.
  destruct (find _ (payouts s)); [reflexivity|]. simpl.
  destruct (Nat.eqb (p_id payout) (pc_payoutId pc)); [|reflexivity].
  now rewrite Hp.
Qed.

Lemma createPayout_run userId amount now s :
  createPayout userId amount now s None =
  if amount <=? 0 then (s, None, Some ValidAmountRequired)
  else if amount <? minimumPayoutThreshold then (s, None, Some BelowMinimumThreshold)
  else if amount >? computeAvailableBalance userId s
       then (s, None, Some InsufficientBalance)
  else (requested userId amount now
          (orderBy_asc c_amount (candidateCommissions userId s)) s,
        None, Some (Res 201 (PayoutJson (newPayout userId amount now s)))).
Proof.
  unfold createPayout, handler.
  destruct (amount <=? 0); [reflexivity|].
  destruct (amount <? minimumPayoutThreshold); [reflexivity|].
  unfold bind at 1. unfold dbRead at 1.
  destruct (amount >? computeAvailableBalance userId s); [reflexivity|].
  unfold bind at 1. unfold payout_create, dbWrite.
  unfold bind at 1. unfold dbRead at 1.
  unfold bind at 1. rewrite linkCommissions_run.
  fold (newPayout userId amount now s). fold (withPayout (newPayout userId amount now s) s).
  rewrite candidateCommissions_withPayout by reflexivity.
  reflexivity.
Qed.

Lemma Legacy_createPayout_run userId amount now s :
  Legacy.createPayout userId amount now s None =
  let availableCommissions := orderBy_asc c_createdAt (candidateCommissions userId s) in
  if amount <=? 0 then (s, None, Some ValidAmountRequired)
  else if amount >? reduce_sum c_amount availableCommissions
       then (s, None, Some InsufficientBalance)
  else (requested userId amount now availableCommissions s,
        None, Some (Res 201 (PayoutJson (newPayout userId amount now s)))).
Proof.
  unfold Legacy.createPayout, handler. cbv zeta.
  destruct (amount <=? 0); [reflexivity|].
  unfold bind at 1. unfold dbRead at 1.
  destruct (amount >? _); [reflexivity|].
  unfold bind at 1. unfold payout_create, dbWrite.
  unfold bind at 1. rewrite linkCommissions_run.
  reflexivity.
Qed.

(* ================================================================== *)
(** ** Facts about single writes *)
(* ================================================================== *)

Lemma Forall2_map_self {A B} (R : A -> B -> Prop) (f : A -> B) (l : list A) :
  (forall x, In x l -> R x (f x)) -> Forall2 R l (map f l).
Proof.
  induction l as [|x l IH]; intros H; simpl; constructor.
  - apply H. now left.
  - apply IH. intros y Hy. apply H. now right.
Qed.

Lemma existsb_eqb_In (n : Id) (ids : list Id) :
  existsb (Nat.eqb n) ids = true <-> In n ids.
Proof.
  rewrite existsb_exists. split.
  - intros [m [Hin Heq]]. apply Nat.eqb_eq in Heq. now subst.
  - intros Hin. exists n. split; [assumption|apply Nat.eqb_refl].
Qed.

Lemma find_update id (upd : Payout -> Payout) (l : list Payout) :
  (forall p, p_id (upd p) = p_id p) ->
  find (fun p => Nat.eqb (p_id p) id)
       (map (fun p => if Nat.eqb (p_id p) id then upd p else p) l) =
  option_map upd (find (fun p => Nat.eqb (p_id p) id) l).
Proof.
  intros Hid. induction l as [|p l IH]; simpl; [reflexivity|].
  destruct (Nat.eqb (p_id p) id) eqn:E.
  - now rewrite Hid, E.
  - now rewrite E.
Qed.

Lemma markCommissions_spec ids st cs :
  Forall2 (fun c c' =>
             c_id c' = c_id c /\ c_orderId c' = c_orderId c /\
             c_userId c' = c_userId c /\ c_amount c' = c_amount c /\
             c_createdAt c' = c_createdAt c /\
             (In (c_id c) ids -> c_status c' = st) /\
             (~ In (c_id c) ids -> c' = c))
          cs (markCommissions ids st cs).
Proof.
  unfold markCommissions. apply Forall2_map_self. intros c _.
  destruct (existsb (Nat.eqb (c_id c)) ids) eqn:E.
  - apply existsb_eqb_In in E. simpl. repeat split; try reflexivity. tauto.
  - repeat split; try reflexivity.
    intros Hin. apply existsb_eqb_In in Hin. congruence.
Qed.

(* ================================================================== *)
(** ** updatePayoutStatus: transitions, side effects, frame *)
(* ================================================================== *)

Lemma applyUpdate_id d p : p_id (applyUpdate d p) = p_id p.
Proof. reflexivity. Qed.

Lemma payout_findUnique_resolved id st tx now existing s :
  payout_findUnique id s = Some existing ->
  payout_findUnique id (resolved id st tx now existing s) =
  Some (applyUpdate (updateDataFor st tx now) existing).
Proof.
  intros H. unfold payout_findUnique, resolved. cbn [payouts].
  rewrite find_update by apply applyUpdate_id.
  unfold payout_findUnique in H. now rewrite H.
Qed.

(** C6, as stated, fails: a PAID payout is resolved to APPROVED, a
    transition outside the spec's state machine, and the handler answers
    200 and stores the new status. *)
Lemma C6_paid_payout_reapproved :
  payout_findUnique 10 store_paid =
    Some (mkPayout 10 agent (units 50) PAID (Some "tx-1") (Some 6000) (Some 7000) 5000) /\
  allowedTransition PAID APPROVED = false /\
  responseOf (updatePayoutStatus 10 "APPROVED" None 8000) store_paid None <>
    Some InvalidStatus /\
  payout_findUnique 10
    (storeAfter (updatePayoutStatus 10 "APPROVED" None 8000) store_paid None) =
    Some (mkPayout 10 agent (units 50) APPROVED (Some "tx-1") (Some 8000) (Some 7000) 5000).
Proof. repeat split; vm_compute; congruence. Qed.

(** C6, amended: updatePayoutStatus checks the requested status against
    the enumeration only.  A status outside PENDING, APPROVED, PAID,
    REJECTED fails with InvalidStatus and nothing is written; for an
    existing payout every status of the enumeration is accepted whatever
    the current status, and the stored payout then has the requested
    status, with paidAt set on a transition into PAID and approvedAt on a
    transition into APPROVED. *)
Theorem C6_status_enumeration_only id status transactionId now s :
  let r := responseOf (updatePayoutStatus id status transactionId now) s None in
  let s' := storeAfter (updatePayoutStatus id status transactionId now) s None in
  match PayoutStatus_of_string status, payout_findUnique id s with
  | None, _ => r = Some InvalidStatus /\ s' = s
  | Some _, None => r = Some NotFound /\ s' = s
  | Some st, Some existing =>
      exists payout,
        r = Some (Res 200 (PayoutJson payout)) /\
        payout_findUnique id s' = Some payout /\
        p_status payout = st /\
        p_paidAt payout = (if PayoutStatus_eqb st PAID then Some now
                           else p_paidAt existing) /\
        p_approvedAt payout = (if PayoutStatus_eqb st APPROVED then Some now
                               else p_approvedAt existing)
  end.
Proof.
  unfold responseOf, storeAfter. rewrite updatePayoutStatus_run.
  destruct (PayoutStatus_of_string status) as [st|]; [|now split].
  destruct (payout_findUnique id s) as [existing|] eqn:E; [|now split].
  cbn [fst snd]. eexists. split; [reflexivity|].
  split; [now apply payout_findUnique_resolved|].
  destruct st; repeat split.
Qed.

Lemma linksReleased_resolved id tx now existing s :
  linksReleased id s (resolved id REJECTED tx now existing s).
Proof.
  unfold linksReleased, payoutCommissions_of, resolved. cbn [payoutCommissions].
  split.
  - induction (payoutCommissions s) as [|pc l IH]; simpl; [reflexivity|].
    destruct (Nat.eqb (pc_payoutId pc) id) eqn:E; simpl; [assumption|].
    now rewrite E.
  - intros pc Hne. rewrite filter_In. split; [tauto|].
    intros Hin. split; [assumption|].
    apply Bool.negb_true_iff. now apply Nat.eqb_neq.
Qed.

(** C7: a successful updatePayoutStatus to APPROVED or PAID sets every
    commission linked to the payout to PAID (and keeps the links); to
    REJECTED from APPROVED or PAID it sets the linked commissions back to
    APPROVED and deletes the payout's links; to REJECTED from PENDING it
    deletes the links and changes no commission. *)
Theorem C7_commission_side_effects id status transactionId now s st existing :
  PayoutStatus_of_string status = Some st ->
  payout_findUnique id s = Some existing ->
  let s' := storeAfter (updatePayoutStatus id status transactionId now) s None in
  let linkedIds := map pc_commissionId (payoutCommissions_of id s) in
  responseOf (updatePayoutStatus id status transactionId now) s None =
    Some (Res 200 (PayoutJson (applyUpdate (updateDataFor st transactionId now) existing))) /\
  match st, p_status existing with
  | APPROVED, _ | PAID, _ =>
      statusSetOn linkedIds C_PAID (commissions s) (commissions s') /\
      payoutCommissions s' = payoutCommissions s
  | REJECTED, APPROVED | REJECTED, PAID =>
      statusSetOn linkedIds C_APPROVED (commissions s) (commissions s') /\
      linksReleased id s s'
  | REJECTED, PENDING =>
      commissions s' = commissions s /\ linksReleased id s s'
  | _, _ => True
  end.
Proof.
  intros Hst Hex. unfold storeAfter, responseOf.
  rewrite updatePayoutStatus_run, Hst, Hex. cbn [fst snd].
  split; [reflexivity|].
  destruct st; [exact I| | |].
  - split; [apply markCommissions_spec|reflexivity].
  - split; [apply markCommissions_spec|reflexivity].
  - destruct (p_status existing) eqn:E; try exact I.
    + split; [|apply linksReleased_resolved].
      unfold resolved. rewrite E. reflexivity.
    + split; [|apply linksReleased_resolved].
      unfold resolved. rewrite E. apply markCommissions_spec.
    + split; [|apply linksReleased_resolved].
      unfold resolved. rewrite E. apply markCommissions_spec.
Qed.

(** The payout of 50 of [store_approved], linked to the commissions 1 and
    2, is rejected: both commissions go back to APPROVED and the links
    are released. *)
Lemma C7_witness :
  statusSetOn [1; 2]%nat C_APPROVED (commissions store_approved)
    (commissions (storeAfter (updatePayoutStatus 10 "REJECTED" None 9000)
                             store_approved None)) /\
  linksReleased 10 store_approved
    (storeAfter (updatePayoutStatus 10 "REJECTED" None 9000) store_approved None).
Proof.
  exact (proj2 (C7_commission_side_effects 10 "REJECTED" None 9000 store_approved
                  REJECTED
                  (mkPayout 10 agent (units 50) APPROVED None (Some 6000) None 5000)
                  eq_refl eq_refl)).
Defined.

(** C10: a successful updatePayoutStatus leaves the payout table with the
    same rows in the same order; the target keeps its id, userId, amount
    and createdAt, keeps its transactionId when no transaction id is
    supplied, and every other payout is unchanged. *)
Theorem C10_resolve_frame id status transactionId now s payout :
  responseOf (updatePayoutStatus id status transactionId now) s None =
    Some (Res 200 (PayoutJson payout)) ->
  let s' := storeAfter (updatePayoutStatus id status transactionId now) s None in
  Forall2 (fun p p' =>
             sameUpToResolution p p' /\
             (transactionId = None -> p_transactionId p' = p_transactionId p) /\
             (p_id p <> id -> p' = p))
          (payouts s) (payouts s').
Proof.
  unfold responseOf, storeAfter. rewrite updatePayoutStatus_run.
  destruct (PayoutStatus_of_string status) as [st|]; [|discriminate].
  destruct (payout_findUnique id s) as [existing|]; [|discriminate].
  cbn [fst snd]. intros _. unfold resolved. cbn [payouts].
  apply Forall2_map_self. intros p _.
  destruct (Nat.eqb (p_id p) id) eqn:E.
  - apply Nat.eqb_eq in E. split; [now repeat split|].
    split; [|congruence]. intros ->. reflexivity.
  - split; [now repeat split|]. split; reflexivity.
Qed.

Lemma C10_witness :
  Forall2 (fun p p' =>
             sameUpToResolution p p' /\
             (@None string = None -> p_transactionId p' = p_transactionId p) /\
             (p_id p <> 10%nat -> p' = p))
          (payouts store_requested)
          (payouts (storeAfter (updatePayoutStatus 10 "APPROVED" None 6000)
                               store_requested None)).
Proof.
  apply (C10_resolve_frame 10 "APPROVED" None 6000 store_requested
           (mkPayout 10 agent (units 50) APPROVED None (Some 6000) None 5000)).
  reflexivity.
Defined.

(* ================================================================== *)
(** ** createPayout: preconditions *)
(* ================================================================== *)

(** An amount that is zero or negative is refused before the threshold
    is looked at, and nothing is written. *)
Lemma createPayout_invalid_amount userId amount now s b :
  amount <= 0 ->
  createPayout userId amount now s b = (s, b, Some ValidAmountRequired).
Proof.
  intros H. unfold createPayout, handler.
  destruct (Z.leb_spec amount 0); [reflexivity|lia].
Qed.

(* ================================================================== *)
(** ** Available balance *)
(* ================================================================== *)

Lemma computeAvailableBalance_nonneg userId s : 0 <= computeAvailableBalance userId s.
Proof. unfold computeAvailableBalance. lia. Qed.

(** C3 at the failing input: after the request of 50 was linked to the
    commissions of 20 and 30 and approved, the code counts the payout's
    amount once per link row (2 x 50 = 100 against 90 earned) and
    computes a balance of 0, where the formula of the claim, counting the
    payout once, gives 90 - 50 = 40. *)
Theorem C3_processed_amount_counted_per_link :
  map pc_payoutId (payoutCommissions store_approved) = [10; 10]%nat /\
  computeAvailableBalance agent store_approved = 0 /\
  spec_availableBalance agent store_approved = units 40.
Proof. repeat split. Qed.

(* ================================================================== *)
(** ** Store failures *)
(* ================================================================== *)

Lemma insert_asc_not_nil {A} (key : A -> Z) x l : insert_asc key x l <> [].
Proof. destruct l as [|y l]; simpl; [|destruct (key x <=? key y)]; discriminate. Qed.

Lemma orderBy_asc_not_nil {A} (key : A -> Z) l : l <> [] -> orderBy_asc key l <> [].
Proof.
  destruct l as [|x l]; [congruence|]. intros _. simpl. apply insert_asc_not_nil.
Qed.

(** The response of the part of createPayout that writes is 201 or 500. *)
Lemma createPayout_business_failure userId amount now s b message :
  responseOf (createPayout userId amount now) s b = Some (Res 400 message) ->
  storeAfter (createPayout userId amount now) s b = s.
Proof.
  unfold responseOf, storeAfter.
  destruct (createPayout userId amount now s b) as [[s' b'] r] eqn:E.
  cbn [fst snd]. intros ->. revert E.
  unfold createPayout, handler.
  destruct (amount <=? 0); [intros E; now inversion E|].
  destruct (amount <? minimumPayoutThreshold); [intros E; now inversion E|].
  unfold bind at 1. unfold dbRead at 1.
  destruct (amount >? computeAvailableBalance userId s); [intros E; now inversion E|].
  unfold bind at 1. unfold payout_create, dbWrite.
  destruct b as [[|n]|]; [discriminate| |].
  - unfold bind at 1. unfold dbRead at 1. unfold bind at 1.
    destruct (linkCommissions _ _ _ _ _) as [[s2 b2] [[]|]]; discriminate.
  - unfold bind at 1. unfold dbRead at 1. unfold bind at 1.
    destruct (linkCommissions _ _ _ _ _) as [[s2 b2] [[]|]]; discriminate.
Qed.

Lemma updatePayoutStatus_business_failure id status transactionId now s b r :
  responseOf (updatePayoutStatus id status transactionId now) s b = Some r ->
  r = InvalidStatus \/ r = NotFound ->
  storeAfter (updatePayoutStatus id status transactionId now) s b = s.
Proof.
  unfold responseOf, storeAfter.
  destruct (updatePayoutStatus id status transactionId now s b) as [[s' b'] r'] eqn:E.
  cbn [fst snd]. intros -> Hcases. revert E.
  unfold updatePayoutStatus, handler.
  destruct (PayoutStatus_of_string status) as [st|]; [|intros E; now inversion E].
  unfold bind at 1. unfold dbRead at 1.
  destruct (payout_findUnique id s) as [existing|]; [|intros E; now inversion E].
  unfold bind at 1. unfold dbRead at 1.
  unfold bind at 1. unfold payout_update, dbWrite.
  destruct b as [[|n]|]; [intros E; now inversion E| |];
    unfold bind at 1;
    match goal with
    | |- context [let (_, _) := ?m ?s1 ?b1 in _] =>
        destruct (m s1 b1) as [[s2 b2] [[]|]]
    end;
    intros E; inversion E; subst; destruct Hcases; discriminate.
Qed.

(** C4, as stated, fails: with a store whose second write throws,
    createPayout answers 500 and leaves the new Payout row without any
    PayoutCommission link, and updatePayoutStatus answers 500 and leaves
    the payout APPROVED while its linked commissions are still APPROVED
    rather than PAID. *)
Lemma C4_partial_writes_stay :
  (responseOf (createPayout agent (units 50) 5000) store_20_30_40 (Some 1%nat) =
     Some StoreFailure /\
   storeAfter (createPayout agent (units 50) 5000) store_20_30_40 (Some 1%nat) =
     mkStore (commissions store_20_30_40)
             [mkPayout 10 agent (units 50) PENDING None None None 5000] [] 11 /\
   storeAfter (createPayout agent (units 50) 5000) store_20_30_40 (Some 1%nat) <>
     store_20_30_40) /\
  (responseOf (updatePayoutStatus 10 "APPROVED" None 6000) store_requested (Some 1%nat) =
     Some StoreFailure /\
   storeAfter (updatePayoutStatus 10 "APPROVED" None 6000) store_requested (Some 1%nat) =
     mkStore (commissions store_requested)
             [mkPayout 10 agent (units 50) APPROVED None (Some 6000) None 5000]
             (payoutCommissions store_requested) 13 /\
   storeAfter (updatePayoutStatus 10 "APPROVED" None 6000) store_requested (Some 1%nat) <>
     store_requested).
Proof. repeat split; vm_compute; congruence. Qed.

(** C4, amended: the handlers apply their store writes one at a time and
    roll nothing back.  The store is exactly the store before the
    operation when the operation fails a business rule (400 or 404) or
    when its first write fails; when the second write fails, createPayout
    has answered 500 and left the new Payout row without links (whenever
    there is a candidate commission to link), and updatePayoutStatus has
    left the payout updated with commissions and links untouched,
    answering 500 for every new status but PENDING. *)
Theorem C4_no_rollback userId amount now id status transactionId s :
  (storeAfter (createPayout userId amount now) s (Some 0%nat) = s /\
   storeAfter (updatePayoutStatus id status transactionId now) s (Some 0%nat) = s) /\
  (forall b message,
     responseOf (createPayout userId amount now) s b = Some (Res 400 message) ->
     storeAfter (createPayout userId amount now) s b = s) /\
  (forall b r,
     responseOf (updatePayoutStatus id status transactionId now) s b = Some r ->
     r = InvalidStatus \/ r = NotFound ->
     storeAfter (updatePayoutStatus id status transactionId now) s b = s) /\
  (units 50 <= amount -> amount <= computeAvailableBalance userId s ->
   storeAfter (createPayout userId amount now) s (Some 1%nat) =
     withPayout (newPayout userId amount now s) s /\
   (candidateCommissions userId s <> [] ->
    responseOf (createPayout userId amount now) s (Some 1%nat) = Some StoreFailure)) /\
  (forall st existing,
     PayoutStatus_of_string status = Some st ->
     payout_findUnique id s = Some existing ->
     storeAfter (updatePayoutStatus id status transactionId now) s (Some 1%nat) =
       mkStore (commissions s)
               (map (fun p => if Nat.eqb (p_id p) id
                              then applyUpdate (updateDataFor st transactionId now) p
                              else p) (payouts s))
               (payoutCommissions s) (nextId s) /\
     (st <> PENDING ->
      responseOf (updatePayoutStatus id status transactionId now) s (Some 1%nat) =
        Some StoreFailure)).
Proof.
  split; [split|split; [|split; [|split]]].
  - unfold storeAfter, createPayout, handler.
    destruct (amount <=? 0); [reflexivity|].
    destruct (amount <? minimumPayoutThreshold); [reflexivity|].
    unfold bind at 1. unfold dbRead at 1.
    destruct (amount >? computeAvailableBalance userId s); reflexivity.
  - unfold storeAfter, updatePayoutStatus, handler.
    destruct (PayoutStatus_of_string status) as [st|]; [|reflexivity].
    unfold bind at 1. unfold dbRead at 1.
    destruct (payout_findUnique id s) as [existing|]; reflexivity.
  - intros b message. apply createPayout_business_failure.
  - intros b r. apply updatePayoutStatus_business_failure.
  - intros Hmin Hbal. change (units 50) with minimumPayoutThreshold in Hmin.
    assert (E : createPayout userId amount now s (Some 1%nat) =
                (withPayout (newPayout userId amount now s) s, Some 0%nat,
                 Some (match candidateCommissions userId s with
                       | [] => Res 201 (PayoutJson (newPayout userId amount now s))
                       | _ => StoreFailure
                       end))).
    { unfold createPayout, handler.
      destruct (Z.leb_spec amount 0);
        [unfold minimumPayoutThreshold, units in Hmin; lia|].
      destruct (Z.ltb_spec amount minimumPayoutThreshold); [lia|].
      unfold bind at 1. unfold dbRead at 1.
      destruct (Z.gtb_spec amount (computeAvailableBalance userId s)); [lia|].
      unfold bind at 1. unfold payout_create, dbWrite.
      unfold bind at 1. unfold dbRead at 1.
      fold (newPayout userId amount now s).
      fold (withPayout (newPayout userId amount now s) s).
      rewrite candidateCommissions_withPayout by reflexivity.
      unfold bind at 1.
      destruct (candidateCommissions userId s) as [|c0 cs0] eqn:Ec; [reflexivity|].
      destruct (orderBy_asc c_amount (c0 :: cs0)) as [|c rest] eqn:Eo.
      - exfalso. revert Eo. apply orderBy_asc_not_nil. discriminate.
      - cbn [linkCommissions]. destruct (Z.leb_spec amount 0); [lia|]. reflexivity. }
    unfold storeAfter, responseOf. rewrite E. cbn [fst snd].
    split; [reflexivity|].
    destruct (candidateCommissions userId s); [congruence|reflexivity].
  - intros st existing Hst Hex.
    unfold storeAfter, responseOf, updatePayoutStatus, handler.
    rewrite Hst. unfold bind, dbRead. rewrite Hex.
    destruct st; destruct (p_status existing);
      (split; [reflexivity|intros Hne; try reflexivity; congruence]).
Qed.

(** On the scenario store, with a store whose second write throws, the
    request of 50 answers 500 and leaves the payout row without links. *)
Lemma C4_witness :
  storeAfter (createPayout agent (units 50) 5000) store_20_30_40 (Some 1%nat) =
    withPayout (newPayout agent (units 50) 5000 store_20_30_40) store_20_30_40 /\
  responseOf (createPayout agent (units 50) 5000) store_20_30_40 (Some 1%nat) =
    Some StoreFailure.
Proof.
  destruct (proj1 (proj2 (proj2 (proj2
              (C4_no_rollback agent (units 50) 5000 10 "APPROVED" None store_20_30_40)))))
    as [Hs Hr].
  - vm_compute. congruence.
  - vm_compute. congruence.
  - split; [exact Hs|]. apply Hr. vm_compute. congruence.
Defined.

(* ================================================================== *)
(** ** createPayout: candidate order and greedy linking *)
(* ================================================================== *)

Section OrderBy.
Context {A : Type} (key : A -> Z).

Lemma insert_asc_perm x l : Permutation (x :: l) (insert_asc key x l).
Proof.
  induction l as [|y l IH]; simpl; [apply Permutation_refl|].
  destruct (key x <=? key y); [apply Permutation_refl|].
  eapply perm_trans; [apply perm_swap|]. now apply perm_skip.
Qed.

Lemma orderBy_asc_perm l : Permutation (orderBy_asc key l) l.
Proof.
  induction l as [|x l IH]; simpl; [constructor|].
  eapply perm_trans; [apply Permutation_sym, insert_asc_perm|].
  now apply perm_skip.
Qed.

Lemma insert_asc_sorted x l :
  StronglySorted (fun a b => key a <= key b) l ->
  StronglySorted (fun a b => key a <= key b) (insert_asc key x l).
Proof.
  induction 1 as [|y l Hs IH Hy]; simpl.
  - repeat constructor.
  - destruct (Z.leb_spec (key x) (key y)).
    + constructor; [now constructor|].
      constructor; [assumption|].
      eapply Forall_impl; [|exact Hy]. simpl. intros. lia.
    + constructor; [assumption|].
      eapply Permutation_Forall; [apply insert_asc_perm|].
      constructor; [lia|assumption].
Qed.

Lemma orderBy_asc_sorted l :
  StronglySorted (fun a b => key a <= key b) (orderBy_asc key l).
Proof.
  induction l as [|x l IH]; simpl; [constructor|]. now apply insert_asc_sorted.
Qed.

End OrderBy.









(* ================================================================== *)
(** ** createPayout: what it may write, whatever the store does *)
(* ================================================================== *)

Lemma linksAdded_refl cands s : linksAdded cands s s.
Proof. split; [reflexivity|]. exists []. now rewrite app_nil_r. Qed.

Lemma linkCommissions_linksAdded payoutId cands : forall remaining s b,
  linksAdded cands s (storeAfter (linkCommissions payoutId cands remaining) s b).
Proof.
  unfold storeAfter.
  induction cands as [|c rest IH]; intros remaining s b; simpl.
  - apply linksAdded_refl.
  - destruct (remaining <=? 0); [apply linksAdded_refl|].
    unfold bind at 1. unfold payoutCommission_create, dbWrite.
    destruct b as [[|n]|]; [apply linksAdded_refl| |].
    + match goal with
      | |- context [linkCommissions payoutId rest ?r ?s1 ?b1] =>
          destruct (IH r s1 b1) as [Hc [extra [He Hf]]]
      end.
      split; [exact Hc|].
      exists (mkPayoutCommission (nextId s) payoutId (c_id c) :: extra).
      split.
      * rewrite He. cbn [payoutCommissions]. now rewrite <- app_assoc.
      * constructor; [now left|].
        eapply Forall_impl; [|exact Hf]. intros pc Hin. now right.
    + match goal with
      | |- context [linkCommissions payoutId rest ?r ?s1 ?b1] =>
          destruct (IH r s1 b1) as [Hc [extra [He Hf]]]
      end.
      split; [exact Hc|].
      exists (mkPayoutCommission (nextId s) payoutId (c_id c) :: extra).
      split.
      * rewrite He. cbn [payoutCommissions]. now rewrite <- app_assoc.
      * constructor; [now left|].
        eapply Forall_impl; [|exact Hf]. intros pc Hin. now right.
Qed.

Lemma linksAdded_incl c1 c2 s s' :
  incl c1 c2 -> linksAdded c1 s s' -> linksAdded c2 s s'.
Proof.
  intros Hi [Hc [extra [He Hf]]]. split; [assumption|].
  exists extra. split; [assumption|].
  eapply Forall_impl; [|exact Hf]. intros pc Hin. simpl in *.
  apply in_map_iff in Hin. destruct Hin as [c [Hid Hin]].
  apply in_map_iff. exists c. split; [assumption|]. now apply Hi.
Qed.

Lemma linksAdded_withPayout cands payout s s' :
  linksAdded cands (withPayout payout s) s' -> linksAdded cands s s'.
Proof. intros H. exact H. Qed.

Lemma orderBy_asc_incl {A} (key : A -> Z) l : incl (orderBy_asc key l) l.
Proof.
  intros x Hin. eapply Permutation_in; [apply orderBy_asc_perm|exact Hin].
Qed.

(** Whatever the store does, createPayout leaves the commissions as they
    were and adds link rows for candidate commissions only. *)
Lemma createPayout_linksAdded userId amount now s b :
  linksAdded (candidateCommissions userId s) s
             (storeAfter (createPayout userId amount now) s b).
Proof.
  unfold storeAfter, createPayout, handler.
  destruct (amount <=? 0); [apply linksAdded_refl|].
  destruct (amount <? minimumPayoutThreshold); [apply linksAdded_refl|].
  unfold bind at 1. unfold dbRead at 1.
  destruct (amount >? computeAvailableBalance userId s); [apply linksAdded_refl|].
  unfold bind at 1. unfold payout_create, dbWrite.
  fold (newPayout userId amount now s).
  fold (withPayout (newPayout userId amount now s) s).
  assert (Hloop : forall b1,
    linksAdded (candidateCommissions userId s) s
      (storeAfter (linkCommissions (nextId s)
                     (orderBy_asc c_amount (candidateCommissions userId s)) amount)
                  (withPayout (newPayout userId amount now s) s) b1)).
  { intros b1. apply linksAdded_withPayout with (payout := newPayout userId amount now s).
    eapply linksAdded_incl; [apply orderBy_asc_incl|].
    apply linkCommissions_linksAdded. }
  destruct b as [[|n]|]; [apply linksAdded_refl| |];
    unfold bind at 1; unfold dbRead at 1;
    rewrite candidateCommissions_withPayout by reflexivity;
    unfold bind at 1;
    match goal with
    | |- context [linkCommissions _ _ _ _ ?b1] => specialize (Hloop b1)
    end;
    unfold storeAfter in Hloop; cbn [p_id newPayout] in *;
    destruct (linkCommissions _ _ _ _ _) as [[s2 b2] [[]|]]; exact Hloop.
Qed.

Lemma Legacy_createPayout_linksAdded userId amount now s b :
  linksAdded (candidateCommissions userId s) s
             (storeAfter (Legacy.createPayout userId amount now) s b).
Proof.
  unfold storeAfter, Legacy.createPayout, handler.
  destruct (amount <=? 0); [apply linksAdded_refl|].
  unfold bind at 1. unfold dbRead at 1.
  destruct (amount >? _); [apply linksAdded_refl|].
  unfold bind at 1. unfold payout_create, dbWrite.
  fold (newPayout userId amount now s).
  fold (withPayout (newPayout userId amount now s) s).
  assert (Hloop : forall b1,
    linksAdded (candidateCommissions userId s) s
      (storeAfter (linkCommissions (nextId s)
                     (orderBy_asc c_createdAt (candidateCommissions userId s)) amount)
                  (withPayout (newPayout userId amount now s) s) b1)).
  { intros b1. apply linksAdded_withPayout with (payout := newPayout userId amount now s).
    eapply linksAdded_incl; [apply orderBy_asc_incl|].
    apply linkCommissions_linksAdded. }
  destruct b as [[|n]|]; [apply linksAdded_refl| |];
    unfold bind at 1;
    match goal with
    | |- context [linkCommissions _ _ _ _ ?b1] => specialize (Hloop b1)
    end;
    unfold storeAfter in Hloop; cbn [p_id newPayout] in *;
    destruct (linkCommissions _ _ _ _ _) as [[s2 b2] [[]|]]; exact Hloop.
Qed.

Lemma candidate_not_linkedToProcessed userId s c :
  In c (candidateCommissions userId s) -> linkedToProcessed (c_id c) s = false.
Proof.
  unfold candidateCommissions, linkedToProcessed, noneLinkedTo.
  intros Hin. apply filter_In in Hin. destruct Hin as [_ Hf].
  apply andb_prop in Hf. destruct Hf as [_ Hnone].
  rewrite forallb_forall in Hnone.
  destruct (existsb _ _) eqn:E; [|reflexivity].
  apply existsb_exists in E. destruct E as [pc [Hpc Hproc]].
  specialize (Hnone pc Hpc). rewrite Hproc in Hnone. discriminate.
Qed.

Lemma linksAdded_linksOf cands s s' commissionId :
  linksAdded cands s s' -> ~ In commissionId (map c_id cands) ->
  linksOf commissionId s' = linksOf commissionId s.
Proof.
  intros [_ [extra [He Hf]]] Hnot. unfold linksOf. rewrite He, filter_app.
  assert (Hnil : filter (fun pc => Nat.eqb (pc_commissionId pc) commissionId) extra = []).
  { clear He. induction Hf as [|pc extra' Hpc _ IH]; simpl; [reflexivity|].
    destruct (Nat.eqb (pc_commissionId pc) commissionId) eqn:E; [|assumption].
    apply Nat.eqb_eq in E. subst. contradiction. }
  rewrite Hnil. apply app_nil_r.
Qed.

(** C2, as stated, fails: after the agent requested 50 and then 100,
    commission 1 (worth 50) is linked to the two PENDING payouts 10 and
    12, which together withdraw 150; both can then be approved, and the
    commission stays linked to two APPROVED payouts. *)
Lemma C2_commission_claimed_twice :
  claimedTwice store_two_requests
    (mkCommission 1 101 agent (units 50) C_APPROVED 1000)
    (mkPayout 10 agent (units 50) PENDING None None None 5000)
    (mkPayout 12 agent (units 100) PENDING None None None 5100) /\
  claimedTwice
    (runCalls [ResolvePayout 10 "APPROVED" None 6000;
               ResolvePayout 12 "APPROVED" None 6100] store_two_requests)
    (mkCommission 1 101 agent (units 50) C_PAID 1000)
    (mkPayout 10 agent (units 50) APPROVED None (Some 6000) None 5000)
    (mkPayout 12 agent (units 100) APPROVED None (Some 6100) None 5100).
Proof.
  split; unfold claimedTwice; vm_compute; repeat split;
    try congruence; try lia; tauto.
Qed.

(** C2, amended: a commission that has a link to a payout whose status
    is APPROVED or PAID is not linked again by a subsequent createPayout
    (of either revision of the handler, and whatever the store does): its
    link rows after the call are its link rows before the call.  A
    commission linked to PENDING payouts only stays a candidate. *)
Theorem C2_processed_commission_not_relinked userId amount now s b commissionId :
  linkedToProcessed commissionId s = true ->
  linksOf commissionId (storeAfter (createPayout userId amount now) s b) =
    linksOf commissionId s /\
  linksOf commissionId (storeAfter (Legacy.createPayout userId amount now) s b) =
    linksOf commissionId s.
Proof.
  intros Hproc.
  assert (Hnot : ~ In commissionId (map c_id (candidateCommissions userId s))).
  { intros Hin. apply in_map_iff in Hin. destruct Hin as [c [Hid Hin]].
    apply candidate_not_linkedToProcessed in Hin. congruence. }
  split.
  - eapply linksAdded_linksOf; [apply createPayout_linksAdded|exact Hnot].
  - eapply linksAdded_linksOf; [apply Legacy_createPayout_linksAdded|exact Hnot].
Qed.

(** In [store_approved] the commission of 20 is linked to the approved
    payout 10; a further request of the agent does not link it. *)
Lemma C2_witness :
  linksOf 1 (storeAfter (createPayout agent (units 50) 7000) store_approved None) =
    linksOf 1 store_approved /\
  linksOf 1 (storeAfter (Legacy.createPayout agent (units 40) 7000) store_approved None) =
    linksOf 1 store_approved.
Proof.
  apply (C2_processed_commission_not_relinked agent (units 50) 7000 store_approved
           None 1).
  reflexivity.
Defined.

(* ================================================================== *)
(** ** Conservation over sequences of calls *)
(* ================================================================== *)

Lemma NoDup_ids_eq (cs : list Commission) c1 c2 :
  NoDup (map c_id cs) -> In c1 cs -> In c2 cs -> c_id c1 = c_id c2 -> c1 = c2.
Proof.
  induction cs as [|c cs IH]; intros Hnd H1 H2 Hid; [contradiction|].
  simpl in Hnd. inversion Hnd as [|? ? Hnotin Hnd']; subst.
  destruct H1 as [->|H1], H2 as [->|H2]; auto.
  - exfalso. apply Hnotin. rewrite Hid. now apply in_map.
  - exfalso. apply Hnotin. rewrite <- Hid. now apply in_map.
Qed.

Lemma markCommissions_ids ids st cs :
  map c_id (markCommissions ids st cs) = map c_id cs.
Proof.
  unfold markCommissions. rewrite map_map. apply map_ext. intros c.
  now destruct (existsb (Nat.eqb (c_id c)) ids).
Qed.

Lemma markCommissions_amounts ids st cs :
  Forall (fun c => 0 <= c_amount c) cs ->
  Forall (fun c => 0 <= c_amount c) (markCommissions ids st cs).
Proof.
  unfold markCommissions. intros H. apply Forall_map.
  eapply Forall_impl; [|exact H]. intros c Hc.
  now destruct (existsb (Nat.eqb (c_id c)) ids).
Qed.

Lemma markCommissions_In ids st cs c' :
  In c' (markCommissions ids st cs) ->
  exists c, In c cs /\ c_id c' = c_id c /\ (c' = c \/ c_status c' = st).
Proof.
  unfold markCommissions. intros H. apply in_map_iff in H.
  destruct H as [c [Hc Hin]]. exists c. split; [assumption|].
  destruct (existsb (Nat.eqb (c_id c)) ids); subst c'; simpl; auto.
Qed.

(** The commissions and links of the store updatePayoutStatus leaves. *)
Lemma resolved_ledger id st tx now existing s :
  (commissions (resolved id st tx now existing s) = commissions s \/
   exists ids cst, cst <> C_BLOCKED /\
     commissions (resolved id st tx now existing s) =
     markCommissions ids cst (commissions s)) /\
  incl (payoutCommissions (resolved id st tx now existing s)) (payoutCommissions s).
Proof.
  unfold resolved. cbn [commissions payoutCommissions]. split.
  - destruct st; [now left| | |].
    + right. eexists _, C_PAID. split; [discriminate|reflexivity].
    + right. eexists _, C_PAID. split; [discriminate|reflexivity].
    + destruct (p_status existing); [now left| | |now left];
        right; eexists _, C_APPROVED; (split; [discriminate|reflexivity]).
  - destruct st; try apply incl_refl. apply incl_filter.
Qed.

Lemma reduce_sum_filter_le {A} (f : A -> Z) (p q : A -> bool) (l : list A) :
  (forall x, In x l -> 0 <= f x) ->
  (forall x, In x l -> p x = true -> q x = true) ->
  reduce_sum f (filter p l) <= reduce_sum f (filter q l).
Proof.
  induction l as [|x l IH]; intros Hpos Himp; simpl; [lia|].
  assert (IH' : reduce_sum f (filter p l) <= reduce_sum f (filter q l)).
  { apply IH; intros y Hy; [apply Hpos|apply Himp]; now right. }
  assert (Hx : 0 <= f x) by (apply Hpos; now left).
  destruct (p x) eqn:Ep.
  - rewrite (Himp x (or_introl eq_refl) Ep), !reduce_sum_cons. lia.
  - destruct (q x); rewrite ?reduce_sum_cons; lia.
Qed.

Lemma payoutCommission_findMany_In userId s pcp :
  In pcp (payoutCommission_findMany userId s) -> In (fst pcp) (payoutCommissions s).
Proof.
  unfold payoutCommission_findMany. intros H. apply in_flat_map in H.
  destruct H as [pc [Hpc Hin]].
  destruct (payout_findUnique (pc_payoutId pc) s) as [p|]; [|contradiction].
  destruct (Nat.eqb (p_userId p) userId); [|contradiction].
  destruct Hin as [<-|[]]. exact Hpc.
Qed.

(** C1, as stated, fails: from a store without links, the agent with
    commissions of 50 and 100 requests 50 and then 100; both requests
    succeed, the commission of 50 is linked to both PENDING payouts, and
    the linked value is 200 against 150 earned. *)
Lemma C1_linked_value_exceeds_earned :
  payoutCommissions store_50_100 = [] /\
  totalEarned agent store_two_requests = units 150 /\
  linkedActiveValue agent store_two_requests = units 200.
Proof. repeat split. Qed.

(* ================================================================== *)
(** ** Stores the ledger cannot tell apart *)
(* ================================================================== *)

Section Related.
Context {A B : Type} (R : A -> B -> Prop).

Lemma Forall2_filter (p : A -> bool) (q : B -> bool) l l' :
  (forall x y, R x y -> p x = q y) ->
  Forall2 R l l' -> Forall2 R (filter p l) (filter q l').
Proof.
  intros Hpq. induction 1 as [|x y l l' Hxy _ IH]; simpl; [constructor|].
  rewrite <- (Hpq x y Hxy). destruct (p x); [now constructor|assumption].
Qed.

Lemma Forall2_reduce_sum (f : A -> Z) (g : B -> Z) l l' :
  (forall x y, R x y -> f x = g y) ->
  Forall2 R l l' -> reduce_sum f l = reduce_sum g l'.
Proof.
  intros Hfg. induction 1 as [|x y l l' Hxy _ IH]; [reflexivity|].
  rewrite !reduce_sum_cons, IH, (Hfg x y Hxy). reflexivity.
Qed.


Lemma Forall2_find_amount (p : A -> bool) (q : B -> bool) (f : A -> Z) (g : B -> Z) l l' :
  (forall x y, R x y -> p x = q y) ->
  (forall x y, R x y -> f x = g y) ->
  Forall2 R l l' ->
  match find p l with Some x => f x | None => 0 end =
  match find q l' with Some y => g y | None => 0 end.
Proof.
  intros Hpq Hfg. induction 1 as [|x y l l' Hxy _ IH]; simpl; [reflexivity|].
  rewrite <- (Hpq x y Hxy). destruct (p x); [now apply Hfg|assumption].
Qed.



End Related.


Lemma sameClass_refl c : sameClass c c.
Proof. now repeat split. Qed.

Lemma flat_map_ext_in {A B} (f g : A -> list B) (l : list A) :
  (forall x, In x l -> f x = g x) -> flat_map f l = flat_map g l.
Proof.
  induction l as [|x l IH]; intros H; simpl; [reflexivity|].
  rewrite (H x (or_introl eq_refl)), IH; [reflexivity|].
  intros y Hy. apply H. now right.
Qed.

Lemma payoutCommission_findMany_equiv userId s s' :
  ledgerEquivalent s s' ->
  payoutCommission_findMany userId s' = payoutCommission_findMany userId s.
Proof.
  intros (_ & Hl & Hp & _). unfold payoutCommission_findMany. rewrite Hl.
  apply flat_map_ext_in. intros pc Hpc. now rewrite Hp.
Qed.

Lemma commission_findMany_equiv userId statuses s s' :
  (forall c c', sameClass c c' ->
     inCStatus (c_status c) statuses = inCStatus (c_status c') statuses) ->
  Forall2 sameClass (commissions s) (commissions s') ->
  Forall2 sameClass (commission_findMany userId statuses s)
                    (commission_findMany userId statuses s').
Proof.
  intros Hst Hc. unfold commission_findMany. apply Forall2_filter; [|assumption].
  intros c c' Hcc. rewrite (Hst c c' Hcc).
  destruct Hcc as (_ & Hu & _). now rewrite Hu.
Qed.

Lemma linkedCommissionAmount_equiv l l' pcp :
  Forall2 sameClass l l' ->
  linkedCommissionAmount l' pcp = linkedCommissionAmount l pcp.
Proof.
  intros H. unfold linkedCommissionAmount. symmetry.
  apply (Forall2_find_amount sameClass); [| |assumption].
  - intros c c' (Hid & _). now rewrite Hid.
  - intros c c' (_ & _ & Ha & _). now rewrite Ha.
Qed.

(** Equivalent stores have the same balance. *)
Lemma computeAvailableBalance_equiv userId s s' :
  ledgerEquivalent s s' ->
  computeAvailableBalance userId s' = computeAvailableBalance userId s.
Proof.
  intros Heq. pose proof Heq as (Hc & Hl & Hp & Hs).
  unfold computeAvailableBalance.
  rewrite (payoutCommission_findMany_equiv userId s s' Heq), Hs.
  assert (Hall : Forall2 sameClass
            (commission_findMany userId [C_PENDING; C_APPROVED; C_PAID] s)
            (commission_findMany userId [C_PENDING; C_APPROVED; C_PAID] s')).
  { apply commission_findMany_equiv; [|assumption].
    intros c c' (_ & _ & _ & _ & _ & Hq). now rewrite Hq. }
  rewrite <- (Forall2_reduce_sum sameClass c_amount c_amount _ _
                (fun c c' H => eq_sym (proj1 (proj2 (proj2 H)))) Hall).
  rewrite (reduce_sum_ext
             (linkedCommissionAmount
                (commission_findMany userId [C_PENDING; C_APPROVED; C_PAID] s'))
             (linkedCommissionAmount
                (commission_findMany userId [C_PENDING; C_APPROVED; C_PAID] s))).
  - reflexivity.
  - intros pcp. now apply linkedCommissionAmount_equiv.
Qed.



(* ================================================================== *)
(** ** The store after a request, and after its release *)
(* ================================================================== *)






Lemma fresh_payout_findUnique s : idsFresh s -> payout_findUnique (nextId s) s = None.
Proof.
  intros [Hf _]. unfold payout_findUnique.
  induction Hf as [|p l Hp _ IH]; simpl; [reflexivity|].
  assert (E : Nat.eqb (p_id p) (nextId s) = false) by (apply Nat.eqb_neq; lia).
  now rewrite E.
Qed.

(** A payout appended under a fresh id is invisible to the lookups of
    the existing link rows. *)
Lemma appended_payout_findUnique s payout id :
  id <> p_id payout ->
  find (fun p => Nat.eqb (p_id p) id) (payouts s ++ [payout]) = payout_findUnique id s.
Proof.
  intros Hne. unfold payout_findUnique. rewrite find_app_l.
  destruct (find _ (payouts s)); [reflexivity|]. simpl.
  assert (E : Nat.eqb (p_id payout) id = false) by (apply Nat.eqb_neq; congruence).
  now rewrite E.
Qed.

Lemma payout_findUnique_requested userId amount now cands s :
  idsFresh s ->
  payout_findUnique (nextId s) (requested userId amount now cands s) =
  Some (newPayout userId amount now s).
Proof.
  intros Hf. unfold payout_findUnique, requested, withLinks, withPayout.
  cbn [payouts]. rewrite find_app_l.
  pose proof (fresh_payout_findUnique s Hf) as Hn. unfold payout_findUnique in Hn.
  rewrite Hn. simpl. now rewrite Nat.eqb_refl.
Qed.



Lemma linked_incl cands : forall remaining, incl (linked cands remaining) cands.
Proof.
  induction cands as [|c rest IH]; intros remaining; simpl; [apply incl_refl|].
  destruct (remaining <=? 0); [apply incl_nil_l|].
  intros x [->|Hx]; [now left|right]. exact (IH _ x Hx).
Qed.

Lemma candidate_status userId s c :
  In c (candidateCommissions userId s) ->
  In c (commissions s) /\ c_userId c = userId /\
  inCStatus (c_status c) [C_APPROVED; C_PENDING] = true.
Proof.
  unfold candidateCommissions. intros H. apply filter_In in H.
  destruct H as [Hin Hf]. apply andb_prop in Hf. destruct Hf as [Hf _].
  apply andb_prop in Hf. destruct Hf as [Hu Hst].
  apply Nat.eqb_eq in Hu. now repeat split.
Qed.



Lemma computeAvailableBalance_parts userId s :
  computeAvailableBalance userId s =
  Z.max 0 (totalEarned userId s -
           (usedInProcessedPayouts userId s +
            Z.min (pendingLinkedValue userId s) (payout_sumPending userId s))).
Proof. reflexivity. Qed.








(* ================================================================== *)
(** ** Balance delta *)
(* ================================================================== *)

Lemma createPayout_created userId amount now s payout :
  responseOf (createPayout userId amount now) s None =
    Some (Res 201 (PayoutJson payout)) ->
  0 < amount /\ minimumPayoutThreshold <= amount /\
  amount <= computeAvailableBalance userId s /\
  payout = newPayout userId amount now s /\
  storeAfter (createPayout userId amount now) s None =
    requested userId amount now (orderBy_asc c_amount (candidateCommissions userId s)) s.
Proof.
  unfold responseOf, storeAfter. rewrite createPayout_run.
  destruct (Z.leb_spec amount 0); [discriminate|].
  destruct (Z.ltb_spec amount minimumPayoutThreshold); [discriminate|].
  destruct (Z.gtb_spec amount (computeAvailableBalance userId s)); [discriminate|].
  cbn [fst snd]. intros Hr. injection Hr as <-. repeat split; lia.
Qed.





(* ================================================================== *)
(** ** updateCommissionStatus *)
(* ================================================================== *)

Lemma updateCommissionStatus_run id status s :
  updateCommissionStatus id status s None =
  match CommissionStatus_of_string status with
  | None => (s, None, Some (Failure 400 "Invalid commission status"))
  | Some st =>
      match commission_findUnique id s with
      | None => (s, None, Some (Failure 500 "Internal server error"))
      | Some c =>
          (mkStore (map (fun c => if Nat.eqb (c_id c) id
                                  then setCommissionStatus st c else c)
                        (commissions s))
                   (payouts s) (payoutCommissions s) (nextId s),
           None, Some (Json 200 (setCommissionStatus st c)))
      end
  end.
Proof.
  unfold updateCommissionStatus, guarded.
  destruct (CommissionStatus_of_string status) as [st|]; [|reflexivity].
  unfold bind, commission_update.
  destruct (commission_findUnique id s) as [c|]; reflexivity.
Qed.

(** X1: updateCommissionStatus refuses a status outside PENDING,
    APPROVED, PAID, BLOCKED with 400, and answers 500 (not 404) when no
    commission has the id; in both cases, whatever the store does,
    nothing is written. *)
Theorem updateCommissionStatus_refusals id status s b :
  (CommissionStatus_of_string status = None ->
   responseOf (updateCommissionStatus id status) s b =
     Some (Failure 400 "Invalid commission status") /\
   storeAfter (updateCommissionStatus id status) s b = s) /\
  (CommissionStatus_of_string status <> None ->
   commission_findUnique id s = None ->
   responseOf (updateCommissionStatus id status) s b =
     Some (Failure 500 "Internal server error") /\
   storeAfter (updateCommissionStatus id status) s b = s).
Proof.
  unfold responseOf, storeAfter, updateCommissionStatus, guarded. split.
  - intros ->. now split.
  - intros Hst Hnone.
    destruct (CommissionStatus_of_string status) as [st|]; [|congruence].
    unfold bind, commission_update. rewrite Hnone. now split.
Qed.

Lemma updateCommissionStatus_refusals_witness :
  (responseOf (updateCommissionStatus 1 "SETTLED") store_20_30_40 (Some 3%nat) =
     Some (Failure 400 "Invalid commission status") /\
   storeAfter (updateCommissionStatus 1 "SETTLED") store_20_30_40 (Some 3%nat) =
     store_20_30_40) /\
  (responseOf (updateCommissionStatus 7 "BLOCKED") store_20_30_40 None =
     Some (Failure 500 "Internal server error") /\
   storeAfter (updateCommissionStatus 7 "BLOCKED") store_20_30_40 None =
     store_20_30_40).
Proof.
  split.
  - apply (updateCommissionStatus_refusals 1 "SETTLED" store_20_30_40 (Some 3%nat)).
    reflexivity.
  - apply (updateCommissionStatus_refusals 7 "BLOCKED" store_20_30_40 None).
    + vm_compute. congruence.
    + reflexivity.
Defined.

(** X2: a successful updateCommissionStatus answers with the commission
    under its new status and changes nothing but the status of the
    commission with that id: its other fields, every other commission,
    the payouts and the links are as before. *)
Theorem updateCommissionStatus_frame id status s st c :
  CommissionStatus_of_string status = Some st ->
  commission_findUnique id s = Some c ->
  let s' := storeAfter (updateCommissionStatus id status) s None in
  responseOf (updateCommissionStatus id status) s None =
    Some (Json 200 (setCommissionStatus st c)) /\
  statusSetOn [id] st (commissions s) (commissions s') /\
  payouts s' = payouts s /\ payoutCommissions s' = payoutCommissions s /\
  nextId s' = nextId s.
Proof.
  intros Hst Hc. unfold responseOf, storeAfter.
  rewrite updateCommissionStatus_run, Hst, Hc. cbn [fst snd commissions payouts
    payoutCommissions nextId].
  repeat split.
  unfold statusSetOn. apply Forall2_map_self. intros x _.
  destruct (Nat.eqb (c_id x) id) eqn:E.
  - repeat split. intros Hn. exfalso. apply Hn. left. symmetry. now apply Nat.eqb_eq.
  - repeat split. intros [Heq|[]]. apply Nat.eqb_neq in E. congruence.
Qed.

Lemma updateCommissionStatus_frame_witness :
  statusSetOn [2%nat] C_BLOCKED (commissions store_20_30_40)
    (commissions (storeAfter (updateCommissionStatus 2 "BLOCKED") store_20_30_40 None)).
Proof.
  exact (proj1 (proj2 (updateCommissionStatus_frame 2 "BLOCKED" store_20_30_40
                         C_BLOCKED
                         (mkCommission 2 102 agent (units 30) C_APPROVED 2000)
                         eq_refl eq_refl))).
Defined.

Lemma commission_find_marked id st (cs : list Commission) :
  find (fun c => Nat.eqb (c_id c) id)
       (map (fun c => if Nat.eqb (c_id c) id then setCommissionStatus st c else c) cs) =
  option_map (setCommissionStatus st) (find (fun c => Nat.eqb (c_id c) id) cs).
Proof.
  induction cs as [|c cs IH]; simpl; [reflexivity|].
  destruct (Nat.eqb (c_id c) id) eqn:E; simpl; now rewrite E.
Qed.

(** X3: on an existing commission, two accepted status updates in a row
    leave the store, and give the answer, of the second one alone. *)
Theorem updateCommissionStatus_last_write_wins id status1 status2 s :
  CommissionStatus_of_string status1 <> None ->
  CommissionStatus_of_string status2 <> None ->
  commission_findUnique id s <> None ->
  updateCommissionStatus id status2
    (storeAfter (updateCommissionStatus id status1) s None) None =
  updateCommissionStatus id status2 s None.
Proof.
  intros H1 H2 Hc. unfold storeAfter. rewrite !updateCommissionStatus_run.
  destruct (CommissionStatus_of_string status1) as [st1|]; [|congruence].
  destruct (commission_findUnique id s) as [c|] eqn:Ec; [|congruence].
  cbn [fst]. destruct (CommissionStatus_of_string status2) as [st2|]; [|congruence].
  unfold commission_findUnique in *. cbn [commissions payouts payoutCommissions nextId].
  rewrite commission_find_marked, Ec. cbn [option_map].
  rewrite map_map. do 3 f_equal.
  apply map_ext. intros x. destruct (Nat.eqb (c_id x) id) eqn:E.
  - cbn [c_id setCommissionStatus]. now rewrite E.
  - now rewrite E.
Qed.

Lemma updateCommissionStatus_last_write_wins_witness :
  updateCommissionStatus 2 "APPROVED"
    (storeAfter (updateCommissionStatus 2 "BLOCKED") store_20_30_40 None) None =
  updateCommissionStatus 2 "APPROVED" store_20_30_40 None.
Proof.
  apply (updateCommissionStatus_last_write_wins 2 "BLOCKED" "APPROVED" store_20_30_40);
    vm_compute; congruence.
Defined.

(* ================================================================== *)
(** ** createPayout: which commissions it links *)
(* ================================================================== *)

Lemma linksAddedTo_refl payoutId cands s : linksAddedTo payoutId cands s s.
Proof. split; [reflexivity|]. exists []. now rewrite app_nil_r. Qed.

Lemma linkCommissions_linksAddedTo payoutId cands : forall remaining s b,
  linksAddedTo payoutId cands s
    (storeAfter (linkCommissions payoutId cands remaining) s b).
Proof.
  unfold storeAfter.
  induction cands as [|c rest IH]; intros remaining s b; simpl.
  - apply linksAddedTo_refl.
  - destruct (remaining <=? 0); [apply linksAddedTo_refl|].
    unfold bind at 1. unfold payoutCommission_create, dbWrite.
    destruct b as [[|n]|]; [apply linksAddedTo_refl| |];
      match goal with
      | |- context [linkCommissions payoutId rest ?r ?s1 ?b1] =>
          destruct (IH r s1 b1) as [Hc [extra [He Hf]]]
      end;
      (split; [exact Hc|];
       exists (mkPayoutCommission (nextId s) payoutId (c_id c) :: extra);
       split;
       [rewrite He; cbn [payoutCommissions]; now rewrite <- app_assoc
       |constructor;
        [split; [reflexivity|now left]
        |eapply Forall_impl; [|exact Hf]; intros pc [H1 H2];
         split; [exact H1|now right]]]).
Qed.

Lemma linksAddedTo_incl payoutId c1 c2 s s' :
  incl c1 c2 -> linksAddedTo payoutId c1 s s' -> linksAddedTo payoutId c2 s s'.
Proof.
  intros Hi [Hc [extra [He Hf]]]. split; [assumption|].
  exists extra. split; [assumption|].
  eapply Forall_impl; [|exact Hf]. intros pc [Hp Hin]. split; [assumption|].
  apply in_map_iff in Hin. destruct Hin as [c [Hid Hin]].
  apply in_map_iff. exists c. split; [assumption|]. now apply Hi.
Qed.

Lemma createPayout_linksAddedTo userId amount now s b :
  linksAddedTo (nextId s) (candidateCommissions userId s) s
               (storeAfter (createPayout userId amount now) s b).
Proof.
  unfold storeAfter, createPayout, handler.
  destruct (amount <=? 0); [apply linksAddedTo_refl|].
  destruct (amount <? minimumPayoutThreshold); [apply linksAddedTo_refl|].
  unfold bind at 1. unfold dbRead at 1.
  destruct (amount >? computeAvailableBalance userId s); [apply linksAddedTo_refl|].
  unfold bind at 1. unfold payout_create, dbWrite.
  fold (newPayout userId amount now s).
  fold (withPayout (newPayout userId amount now s) s).
  assert (Hloop : forall b1,
    linksAddedTo (nextId s) (candidateCommissions userId s) s
      (storeAfter (linkCommissions (nextId s)
                     (orderBy_asc c_amount (candidateCommissions userId s)) amount)
                  (withPayout (newPayout userId amount now s) s) b1)).
  { intros b1.
    eapply linksAddedTo_incl; [apply orderBy_asc_incl|].
    apply (linkCommissions_linksAddedTo (nextId s) _ amount
             (withPayout (newPayout userId amount now s) s) b1). }
  destruct b as [[|n]|]; [apply linksAddedTo_refl| |];
    unfold bind at 1; unfold dbRead at 1;
    rewrite candidateCommissions_withPayout by reflexivity;
    unfold bind at 1;
    match goal with
    | |- context [linkCommissions _ _ _ _ ?b1] => specialize (Hloop b1)
    end;
    unfold storeAfter in Hloop; cbn [p_id newPayout] in *;
    destruct (linkCommissions _ _ _ _ _) as [[s2 b2] [[]|]]; exact Hloop.
Qed.

Lemma Legacy_createPayout_linksAddedTo userId amount now s b :
  linksAddedTo (nextId s) (candidateCommissions userId s) s
               (storeAfter (Legacy.createPayout userId amount now) s b).
Proof.
  unfold storeAfter, Legacy.createPayout, handler.
  destruct (amount <=? 0); [apply linksAddedTo_refl|].
  unfold bind at 1. unfold dbRead at 1.
  destruct (amount >? _); [apply linksAddedTo_refl|].
  unfold bind at 1. unfold payout_create, dbWrite.
  fold (newPayout userId amount now s).
  fold (withPayout (newPayout userId amount now s) s).
  assert (Hloop : forall b1,
    linksAddedTo (nextId s) (candidateCommissions userId s) s
      (storeAfter (linkCommissions (nextId s)
                     (orderBy_asc c_createdAt (candidateCommissions userId s)) amount)
                  (withPayout (newPayout userId amount now s) s) b1)).
  { intros b1.
    eapply linksAddedTo_incl; [apply orderBy_asc_incl|].
    apply (linkCommissions_linksAddedTo (nextId s) _ amount
             (withPayout (newPayout userId amount now s) s) b1). }
  destruct b as [[|n]|]; [apply linksAddedTo_refl| |];
    unfold bind at 1;
    match goal with
    | |- context [linkCommissions _ _ _ _ ?b1] => specialize (Hloop b1)
    end;
    unfold storeAfter in Hloop; cbn [p_id newPayout] in *;
    destruct (linkCommissions _ _ _ _ _) as [[s2 b2] [[]|]]; exact Hloop.
Qed.

Lemma linksAddedTo_eligible userId s s' :
  linksAddedTo (nextId s) (candidateCommissions userId s) s s' ->
  commissions s' = commissions s /\
  exists extra,
    payoutCommissions s' = payoutCommissions s ++ extra /\
    Forall (eligibleLink userId s) extra.
Proof.
  intros [Hc [extra [He Hf]]]. split; [assumption|].
  exists extra. split; [assumption|].
  eapply Forall_impl; [|exact Hf]. intros pc [Hp Hin].
  split; [assumption|].
  apply in_map_iff in Hin. destruct Hin as [c [Hid Hcand]].
  exists c. pose proof (candidate_not_linkedToProcessed userId s c Hcand) as Hn.
  apply candidate_status in Hcand. destruct Hcand as (Hin & Hu & Hst).
  repeat split; try assumption.
  destruct (c_status c); simpl in Hst; try discriminate; auto.
Qed.

(** X4: whatever the store does, createPayout (either revision) changes
    no commission, and every link row it adds belongs to the payout it
    creates and points to a commission of the requesting agent that is
    PENDING or APPROVED and has no link to an APPROVED or PAID payout; a
    BLOCKED or PAID commission, or another agent's, is never linked. *)
Theorem createPayout_links_eligible_only userId amount now s b :
  (commissions (storeAfter (createPayout userId amount now) s b) = commissions s /\
   exists extra,
     payoutCommissions (storeAfter (createPayout userId amount now) s b) =
       payoutCommissions s ++ extra /\
     Forall (eligibleLink userId s) extra) /\
  (commissions (storeAfter (Legacy.createPayout userId amount now) s b) =
     commissions s /\
   exists extra,
     payoutCommissions (storeAfter (Legacy.createPayout userId amount now) s b) =
       payoutCommissions s ++ extra /\
     Forall (eligibleLink userId s) extra).
Proof.
  split; apply linksAddedTo_eligible.
  - apply createPayout_linksAddedTo.
  - apply Legacy_createPayout_linksAddedTo.
Qed.




(* ================================================================== *)
(** ** The agent dashboard *)
(* ================================================================== *)

Lemma getAgentDashboardMetrics_parts userId orders s :
  getAgentDashboardMetrics userId orders s =
  mkAgentDashboard
    (List.length (filter (referredBy userId) orders))
    (reduce_sum o_totalPrice
       (filter (fun o => referredBy userId o && isCompleted o) orders))
    (computeAvailableBalance userId s)
    (List.length (filter (pendingOf userId) (payouts s)))
    (reduce_sum p_amount (filter (processedOf userId) (payouts s))).
Proof.
  unfold getAgentDashboardMetrics, computeAvailableBalance. cbv zeta.
  f_equal. lia.
Qed.



(* ================================================================== *)
(** ** One agent's request and the other agents *)
(* ================================================================== *)

Lemma payoutIdsFresh_findUnique s :
  payoutIdsFresh s -> payout_findUnique (nextId s) s = None.
Proof.
  intros Hf. unfold payout_findUnique.
  induction Hf as [|p l Hp _ IH]; simpl; [reflexivity|].
  assert (E : Nat.eqb (p_id p) (nextId s) = false) by (apply Nat.eqb_neq; lia).
  now rewrite E.
Qed.

Lemma requested_other_findMany userId other amount now cands s :
  userId <> other -> payoutIdsFresh s ->
  payoutCommission_findMany other (requested userId amount now cands s) =
  payoutCommission_findMany other s.
Proof.
  intros Hne Hf. unfold payoutCommission_findMany.
  assert (Hl : payoutCommissions (requested userId amount now cands s) =
               payoutCommissions s ++
               newLinks (nextId s) (S (nextId s)) (linked cands amount)) by reflexivity.
  assert (Hu : Nat.eqb userId other = false) by now apply Nat.eqb_neq.
  assert (Hfind : forall id,
            payout_findUnique id (requested userId amount now cands s) =
            match payout_findUnique id s with
            | Some p => Some p
            | None => if Nat.eqb (nextId s) id
                      then Some (newPayout userId amount now s) else None
            end).
  { intros id. unfold payout_findUnique, requested, withLinks, withPayout.
    cbn [payouts]. rewrite find_app_l. reflexivity. }
  rewrite Hl, flat_map_app.
  match goal with
  | |- _ ++ ?new = _ => assert (Hnew : new = [])
  end.
  { clear Hl. generalize (S (nextId s)) as n.
    induction (linked cands amount) as [|c l IH]; intros n; simpl; [reflexivity|].
    rewrite Hfind, (payoutIdsFresh_findUnique s Hf), Nat.eqb_refl.
    cbn [p_userId newPayout]. rewrite Hu. simpl. apply IH. }
  rewrite Hnew, app_nil_r.
  apply flat_map_ext_in. intros pc _. rewrite Hfind.
  destruct (payout_findUnique (pc_payoutId pc) s); [reflexivity|].
  destruct (Nat.eqb (nextId s) (pc_payoutId pc)); [|reflexivity].
  cbn [p_userId newPayout]. now rewrite Hu.
Qed.

Lemma requested_other_payouts userId other amount now cands s (q : Payout -> bool) :
  userId <> other ->
  (forall p, q p = true -> p_userId p = other) ->
  filter q (payouts (requested userId amount now cands s)) = filter q (payouts s).
Proof.
  intros Hne Hq. unfold requested, withLinks, withPayout. cbn [payouts].
  rewrite filter_app. simpl.
  destruct (q (newPayout userId amount now s)) eqn:E; [|apply app_nil_r].
  apply Hq in E. simpl in E. congruence.
Qed.

Lemma requested_other_agent userId other amount now cands orders s :
  userId <> other -> payoutIdsFresh s ->
  getAgentDashboardMetrics other orders (requested userId amount now cands s) =
    getAgentDashboardMetrics other orders s /\
  responseOf (getAgentPayouts other) (requested userId amount now cands s) None =
    responseOf (getAgentPayouts other) s None.
Proof.
  intros Hne Hf. split.
  - rewrite !getAgentDashboardMetrics_parts. f_equal.
    + rewrite !computeAvailableBalance_parts.
      unfold usedInProcessedPayouts, pendingLinkedValue.
      rewrite (requested_other_findMany userId other amount now cands s Hne Hf).
      assert (Hp : payout_sumPending other (requested userId amount now cands s) =
                   payout_sumPending other s).
      { unfold payout_sumPending.
        rewrite (requested_other_payouts userId other amount now cands s _ Hne);
          [reflexivity|].
        intros p Hp. apply andb_prop in Hp. destruct Hp as [Hp _].
        now apply Nat.eqb_eq. }
      rewrite Hp. reflexivity.
    + rewrite (requested_other_payouts userId other amount now cands s _ Hne);
        [reflexivity|].
      intros p Hp. apply andb_prop in Hp. destruct Hp as [Hp _]. now apply Nat.eqb_eq.
    + rewrite (requested_other_payouts userId other amount now cands s _ Hne);
        [reflexivity|].
      intros p Hp. apply andb_prop in Hp. destruct Hp as [Hp _]. now apply Nat.eqb_eq.
  - unfold responseOf, getAgentPayouts, guarded, bind, dbRead, ret. cbn [snd].
    rewrite (requested_other_payouts userId other amount now cands s _ Hne);
      [reflexivity|].
    intros p Hp. now apply Nat.eqb_eq.
Qed.

(** X7: one agent's request leaves the other agents alone.  On a store
    whose next id is used by no payout, whatever createPayout (either
    revision) answers to an agent, the dashboard (available balance,
    pending payouts, earnings) and the payout list of every other agent
    are what they were. *)
Theorem createPayout_other_agent_unaffected userId other amount now orders s :
  userId <> other -> payoutIdsFresh s ->
  let s1 := storeAfter (createPayout userId amount now) s None in
  let s2 := storeAfter (Legacy.createPayout userId amount now) s None in
  (getAgentDashboardMetrics other orders s1 = getAgentDashboardMetrics other orders s /\
   responseOf (getAgentPayouts other) s1 None =
     responseOf (getAgentPayouts other) s None) /\
  (getAgentDashboardMetrics other orders s2 = getAgentDashboardMetrics other orders s /\
   responseOf (getAgentPayouts other) s2 None =
     responseOf (getAgentPayouts other) s None).
Proof.
  intros Hne Hf. cbv zeta. unfold storeAfter at 1 2 3 4.
  rewrite createPayout_run, Legacy_createPayout_run. cbv zeta. split.
  - destruct (amount <=? 0); [now split|].
    destruct (amount <? minimumPayoutThreshold); [now split|].
    destruct (amount >? computeAvailableBalance userId s); [now split|].
    cbn [fst]. now apply requested_other_agent.
  - destruct (amount <=? 0); [now split|].
    destruct (amount >? _); [now split|].
    cbn [fst]. now apply requested_other_agent.
Qed.

Lemma createPayout_other_agent_unaffected_witness :
  getAgentDashboardMetrics 2 [] store_requested =
    getAgentDashboardMetrics 2 [] store_20_30_40 /\
  responseOf (getAgentPayouts 2) store_requested None =
    responseOf (getAgentPayouts 2) store_20_30_40 None.
Proof.
  apply (createPayout_other_agent_unaffected agent 2 (units 50) 5000 []
           store_20_30_40).
  - discriminate.
  - constructor.
Defined.

(* ================================================================== *)
(** ** What the balance subtracts for processed payouts *)
(* ================================================================== *)










(* ================================================================== *)
(** ** updatePayoutStatus and the dashboard counters *)
(* ================================================================== *)

Lemma length_filter_as_sum {A} (q : A -> bool) (l : list A) :
  Z.of_nat (List.length (filter q l)) = reduce_sum (fun x => Z.b2z (q x)) l.
Proof.
  induction l as [|x l IH]; [reflexivity|].
  rewrite reduce_sum_cons, <- IH. simpl.
  destruct (q x); cbn [List.length Z.b2z]; lia.
Qed.

Lemma reduce_sum_filter_as_sum {A} (f : A -> Z) (q : A -> bool) (l : list A) :
  reduce_sum f (filter q l) = reduce_sum (fun x => if q x then f x else 0) l.
Proof.
  induction l as [|x l IH]; [reflexivity|].
  rewrite reduce_sum_cons, <- IH. simpl.
  destruct (q x); rewrite ?reduce_sum_cons; lia.
Qed.

(** Updating the row of a unique id moves a sum by the row's weight. *)
Lemma reduce_sum_update id (upd : Payout -> Payout) (w : Payout -> Z) l p :
  NoDup (map p_id l) ->
  find (fun x => Nat.eqb (p_id x) id) l = Some p ->
  reduce_sum w (map (fun x => if Nat.eqb (p_id x) id then upd x else x) l) =
  reduce_sum w l - w p + w (upd p).
Proof.
  induction l as [|x l IH]; intros Hnd Hfind; [discriminate|].
  simpl in Hnd. inversion Hnd as [|? ? Hnotin Hnd']; subst.
  simpl in Hfind. cbn [map]. rewrite !reduce_sum_cons.
  destruct (Nat.eqb (p_id x) id) eqn:E.
  - injection Hfind as <-.
    assert (Hrest : map (fun y => if Nat.eqb (p_id y) id then upd y else y) l = l).
    { rewrite <- (map_id l) at 2. apply map_ext_in. intros y Hy.
      destruct (Nat.eqb (p_id y) id) eqn:Ey; [|reflexivity].
      apply Nat.eqb_eq in E, Ey. exfalso. apply Hnotin. rewrite E, <- Ey.
      now apply in_map. }
    rewrite Hrest. lia.
  - rewrite (IH Hnd' Hfind). lia.
Qed.

(** X9: with unique payout ids, a successful updatePayoutStatus moves the
    payout between the dashboard counters of its agent and touches
    nothing else there: pendingPayouts loses the payout if it was PENDING
    and gains it if it becomes PENDING, totalEarnings loses its amount if
    it was APPROVED or PAID and gains it if it becomes APPROVED or PAID. *)
Theorem updatePayoutStatus_moves_dashboard_counters
    id status transactionId now orders s p st :
  NoDup (map p_id (payouts s)) ->
  PayoutStatus_of_string status = Some st ->
  payout_findUnique id s = Some p ->
  let d := getAgentDashboardMetrics (p_userId p) orders s in
  let d' := getAgentDashboardMetrics (p_userId p) orders
              (storeAfter (updatePayoutStatus id status transactionId now) s None) in
  Z.of_nat (pendingPayouts d') =
    Z.of_nat (pendingPayouts d) - Z.b2z (PayoutStatus_eqb (p_status p) PENDING)
                                + Z.b2z (PayoutStatus_eqb st PENDING) /\
  totalEarnings d' =
    totalEarnings d - (if inPStatus (p_status p) [APPROVED; PAID] then p_amount p else 0)
                    + (if inPStatus st [APPROVED; PAID] then p_amount p else 0) /\
  totalReferrals d' = totalReferrals d /\ totalSales d' = totalSales d.
Proof.
  intros Hnd Hst Hp. cbv zeta. unfold storeAfter.
  rewrite updatePayoutStatus_run, Hst, Hp. cbn [fst].
  rewrite !getAgentDashboardMetrics_parts.
  cbn [pendingPayouts totalEarnings totalReferrals totalSales].
  unfold resolved. cbn [payouts].
  rewrite !length_filter_as_sum, !reduce_sum_filter_as_sum.
  unfold payout_findUnique in Hp.
  rewrite !(reduce_sum_update id _ _ (payouts s) p Hnd Hp).
  unfold pendingOf, processedOf.
  cbn [p_userId p_status p_amount applyUpdate updateDataFor ud_status].
  rewrite Nat.eqb_refl. cbn [andb]. repeat split; lia.
Qed.

Lemma updatePayoutStatus_moves_dashboard_counters_witness :
  Z.of_nat (pendingPayouts (getAgentDashboardMetrics agent [] store_approved)) =
    Z.of_nat (pendingPayouts (getAgentDashboardMetrics agent [] store_requested)) - 1 /\
  totalEarnings (getAgentDashboardMetrics agent [] store_approved) =
    totalEarnings (getAgentDashboardMetrics agent [] store_requested) + units 50.
Proof.
  assert (Hnd : NoDup (map p_id (payouts store_requested)))
    by (repeat constructor; simpl; tauto).
  destruct (updatePayoutStatus_moves_dashboard_counters 10 "APPROVED" None 6000 []
              store_requested
              (mkPayout 10 agent (units 50) PENDING None None None 5000) APPROVED
              Hnd eq_refl eq_refl) as (H1 & H2 & _).
  split; [exact H1|exact H2].
Defined.

(* ================================================================== *)
(** ** getAgentPayouts *)
(* ================================================================== *)

Lemma StronglySorted_impl {A} (R R' : A -> A -> Prop) (l : list A) :
  (forall a b, R a b -> R' a b) -> StronglySorted R l -> StronglySorted R' l.
Proof.
  intros H. induction 1 as [|x l Hs IH Hx]; constructor; [assumption|].
  eapply Forall_impl; [|exact Hx]. intros y. apply H.
Qed.

Lemma orderBy_desc_sorted {A} (key : A -> Z) (l : list A) :
  StronglySorted (fun a b => key b <= key a) (orderBy_desc key l).
Proof.
  unfold orderBy_desc.
  apply (StronglySorted_impl (fun a b => - key a <= - key b));
    [intros a b; lia|apply orderBy_asc_sorted].
Qed.

(** X10: getAgentPayouts writes nothing and answers with all the payouts
    of the agent and no other agent's, newest first; the payout a
    successful createPayout has just created is in the agent's list. *)
Theorem getAgentPayouts_lists_own_payouts userId s :
  (exists l,
     responseOf (getAgentPayouts userId) s None = Some (Json 200 l) /\
     storeAfter (getAgentPayouts userId) s None = s /\
     Permutation l (filter (fun p => Nat.eqb (p_userId p) userId) (payouts s)) /\
     (forall p, In p l <-> In p (payouts s) /\ p_userId p = userId) /\
     StronglySorted (fun a b => p_createdAt b <= p_createdAt a) l) /\
  (forall amount now payout,
     responseOf (createPayout userId amount now) s None =
       Some (Res 201 (PayoutJson payout)) ->
     exists l,
       responseOf (getAgentPayouts userId)
         (storeAfter (createPayout userId amount now) s None) None =
         Some (Json 200 l) /\
       In payout l).
Proof.
  assert (Hlist : forall s0,
    exists l,
      responseOf (getAgentPayouts userId) s0 None = Some (Json 200 l) /\
      storeAfter (getAgentPayouts userId) s0 None = s0 /\
      Permutation l (filter (fun p => Nat.eqb (p_userId p) userId) (payouts s0)) /\
      (forall p, In p l <-> In p (payouts s0) /\ p_userId p = userId) /\
      StronglySorted (fun a b => p_createdAt b <= p_createdAt a) l).
  { intros s0.
    exists (orderBy_desc p_createdAt
              (filter (fun p => Nat.eqb (p_userId p) userId) (payouts s0))).
    split; [reflexivity|]. split; [reflexivity|].
    assert (Hperm : Permutation
              (orderBy_desc p_createdAt
                 (filter (fun p => Nat.eqb (p_userId p) userId) (payouts s0)))
              (filter (fun p => Nat.eqb (p_userId p) userId) (payouts s0)))
      by apply orderBy_asc_perm.
    split; [exact Hperm|]. split; [|apply orderBy_desc_sorted].
    intros p. split.
    - intros Hin. apply (Permutation_in _ Hperm) in Hin.
      apply filter_In in Hin. destruct Hin as [Hin Hu].
      apply Nat.eqb_eq in Hu. now split.
    - intros [Hin Hu]. apply (Permutation_in _ (Permutation_sym Hperm)).
      apply filter_In. split; [assumption|]. now apply Nat.eqb_eq. }
  split; [apply Hlist|].
  intros amount now payout Hres.
  destruct (createPayout_created userId amount now s payout Hres)
    as (_ & _ & _ & -> & Hs1).
  destruct (Hlist (storeAfter (createPayout userId amount now) s None))
    as (l & Hl & _ & _ & Hmem & _).
  exists l. split; [exact Hl|]. apply Hmem. rewrite Hs1. split; [|reflexivity].
  unfold requested, withLinks, withPayout. cbn [payouts].
  apply in_or_app. right. now left.
Qed.

Lemma getAgentPayouts_lists_own_payouts_witness :
  exists l,
    responseOf (getAgentPayouts agent) store_requested None = Some (Json 200 l) /\
    In (mkPayout 10 agent (units 50) PENDING None None None 5000) l.
Proof.
  apply (proj2 (getAgentPayouts_lists_own_payouts agent store_20_30_40)
           (units 50) 5000).
  reflexivity.
Defined.

(* ================================================================== *)
(** ** Approving a payout that was rejected *)
(* ================================================================== *)

Lemma payout_find_other id id' (upd : Payout -> Payout) (l : list Payout) :
  (forall p, p_id (upd p) = p_id p) -> id' <> id ->
  find (fun p => Nat.eqb (p_id p) id')
       (map (fun p => if Nat.eqb (p_id p) id then upd p else p) l) =
  find (fun p => Nat.eqb (p_id p) id') l.
Proof.
  intros Hid Hne. induction l as [|p l IH]; simpl; [reflexivity|].
  destruct (Nat.eqb (p_id p) id) eqn:E.
  - rewrite Hid. apply Nat.eqb_eq in E.
    destruct (Nat.eqb (p_id p) id') eqn:E'; [|assumption].
    apply Nat.eqb_eq in E'. congruence.
  - now rewrite IH.
Qed.

Lemma markCommissions_nil st cs : markCommissions [] st cs = cs.
Proof. unfold markCommissions. simpl. apply map_id. Qed.

Lemma reduce_sum_map {A B} (f : B -> Z) (g : A -> B) (l : list A) :
  reduce_sum f (map g l) = reduce_sum (fun x => f (g x)) l.
Proof.
  induction l as [|x l IH]; [reflexivity|].
  cbn [map]. now rewrite !reduce_sum_cons, IH.
Qed.

(** X11: a payout approved (or marked paid) after it was rejected has no
    links left, so the approval changes no commission and no link, and
    no agent's available balance: the payout is stored as APPROVED but
    nothing is subtracted for it. *)
Theorem approval_after_rejection_is_not_subtracted
    id status tx1 t1 tx2 t2 s userId :
  payout_findUnique id s <> None ->
  status = "APPROVED" \/ status = "PAID" ->
  let s1 := storeAfter (updatePayoutStatus id "REJECTED" tx1 t1) s None in
  let s2 := storeAfter (updatePayoutStatus id status tx2 t2) s1 None in
  (exists payout, payout_findUnique id s2 = Some payout /\
                  PayoutStatus_of_string status = Some (p_status payout)) /\
  commissions s2 = commissions s1 /\
  payoutCommissions s2 = payoutCommissions s1 /\
  computeAvailableBalance userId s2 = computeAvailableBalance userId s1.
Proof.
  intros Hex Hstatus. cbv zeta.
  destruct (payout_findUnique id s) as [p|] eqn:Ep; [clear Hex|congruence].
  assert (Hs1 : storeAfter (updatePayoutStatus id "REJECTED" tx1 t1) s None =
                resolved id REJECTED tx1 t1 p s).
  { unfold storeAfter. rewrite updatePayoutStatus_run.
    change (PayoutStatus_of_string "REJECTED") with (Some REJECTED). cbv iota.
    now rewrite Ep. }
  rewrite Hs1. set (s1 := resolved id REJECTED tx1 t1 p s).
  set (p1 := applyUpdate (updateDataFor REJECTED tx1 t1) p).
  assert (Ep1 : payout_findUnique id s1 = Some p1)
    by now apply payout_findUnique_resolved.
  assert (Hst : exists st, PayoutStatus_of_string status = Some st /\
                           (st = APPROVED \/ st = PAID)).
  { destruct Hstatus; subst status; [exists APPROVED|exists PAID]; split; auto. }
  destruct Hst as [st [Hparse Hst]].
  assert (Hs2 : storeAfter (updatePayoutStatus id status tx2 t2) s1 None =
                resolved id st tx2 t2 p1 s1).
  { unfold storeAfter. now rewrite updatePayoutStatus_run, Hparse, Ep1. }
  rewrite Hs2. set (s2 := resolved id st tx2 t2 p1 s1).
  destruct (linksReleased_resolved id tx1 t1 p s) as [Hnone Hother].
  fold s1 in Hnone, Hother.
  assert (Hc : commissions s2 = commissions s1).
  { subst s2. unfold resolved. cbn [commissions]. rewrite Hnone. cbn [map].
    destruct Hst; subst st; apply markCommissions_nil. }
  assert (Hl : payoutCommissions s2 = payoutCommissions s1)
    by (subst s2; destruct Hst; subst st; reflexivity).
  split; [|split; [exact Hc|split; [exact Hl|]]].
  - exists (applyUpdate (updateDataFor st tx2 t2) p1).
    split; [now apply payout_findUnique_resolved|].
    rewrite Hparse. reflexivity.
  - apply computeAvailableBalance_equiv. unfold ledgerEquivalent.
    rewrite Hc, Hl. repeat split.
    + generalize (commissions s1). intros cs.
      induction cs; constructor; auto using sameClass_refl.
    + intros pc Hpc. subst s2. unfold payout_findUnique, resolved. cbn [payouts].
      apply payout_find_other; [reflexivity|].
      intros Heq. unfold payoutCommissions_of in Hnone.
      assert (Hin : In pc (filter (fun pc0 => Nat.eqb (pc_payoutId pc0) id)
                                  (payoutCommissions s1))).
      { apply filter_In. split; [assumption|]. now apply Nat.eqb_eq. }
      rewrite Hnone in Hin. contradiction.
    + intros u. unfold payout_sumPending. subst s2 s1. unfold resolved.
      cbn [payouts]. rewrite !reduce_sum_filter_as_sum, !reduce_sum_map.
      apply reduce_sum_ext. intros x.
      destruct (Nat.eqb (p_id x) id) eqn:E.
      * cbn [p_id applyUpdate]. rewrite E.
        cbn [p_userId p_status p_amount applyUpdate updateDataFor ud_status].
        destruct Hst; subst st; cbn [PayoutStatus_eqb];
          now rewrite !andb_false_r.
      * now rewrite E.
Qed.

Lemma approval_after_rejection_is_not_subtracted_witness :
  computeAvailableBalance agent
    (storeAfter (updatePayoutStatus 10 "APPROVED" None 8000)
       (storeAfter (updatePayoutStatus 10 "REJECTED" None 7000) store_approved None)
       None) =
  computeAvailableBalance agent
    (storeAfter (updatePayoutStatus 10 "REJECTED" None 7000) store_approved None).
Proof.
  apply (approval_after_rejection_is_not_subtracted 10 "APPROVED" None 7000 None 8000
           store_approved agent).
  - vm_compute. congruence.
  - now left.
Defined.

(* ================================================================== *)
(** ** The authentication middleware in front of the payout routes *)
(* ================================================================== *)

Lemma truthy_nonempty v token : truthy v = Some token -> v = Some token /\ token <> "".
Proof.
  destruct v as [[|a t]|]; simpl; intros H; try discriminate.
  injection H as <-. split; [reflexivity|discriminate].
Qed.

Lemma extractTokenFromCookies_nonempty req tokenType token :
  extractTokenFromCookies req tokenType = Some token -> token <> "".
Proof.
  unfold extractTokenFromCookies.
  destruct (req_cookies req) as [cookies|]; [|discriminate].
  destruct tokenType; intros H; now apply truthy_nonempty in H.
Qed.

Lemma user_findUnique_id id users user :
  user_findUnique id users = Some user -> u_id user = id /\ In user users.
Proof.
  unfold user_findUnique. intros H. apply find_some in H.
  destruct H as [Hin Heq]. apply Nat.eqb_eq in Heq. now split.
Qed.

Lemma requireAuth_cases verify users req :
  match requireAuth verify users req with
  | Next au =>
      exists table user,
        users = Some table /\ authenticatedAs verify table req user /\
        au = mkAuthUser (u_id user) (u_email user) (u_role user)
  | Denied code message =>
      code = 401 \/ code = 403 \/
      (code = 500 /\ message = "Internal server error" /\ users = None)
  end.
Proof.
  unfold requireAuth.
  destruct (extractTokenFromCookies req access) as [token|] eqn:Et; [|now left].
  destruct (verify token) as [payload|] eqn:Ev; [|now right; left].
  destruct users as [table|]; [|now right; right].
  destruct (user_findUnique (jwt_userId payload) table) as [user|] eqn:Eu;
    [|now right; left].
  destruct (u_isActive user) eqn:Ea; simpl; [|now right; left].
  exists table, user. split; [reflexivity|]. split; [|reflexivity].
  exists token, payload. repeat split; try assumption.
  - now apply (extractTokenFromCookies_nonempty req access).
  - now apply (user_findUnique_id _ table).
Qed.

Lemma requireAuth_lookup_throws verify req token payload :
  extractTokenFromCookies req access = Some token ->
  verify token = Some payload ->
  requireAuth verify None req = Denied 500 "Internal server error".
Proof. unfold requireAuth. now intros -> ->. Qed.

(** X12: the agent payout route.  A request the middleware refuses is
    answered 401, 403, or 500 when the user lookup throws, and writes
    nothing; a request whose token verifies is answered 500 when the
    lookup throws; the store changes only when the lookup succeeds and
    the access-token cookie verifies to an active user with role AGENT,
    and the route then behaves as createPayout for that user's id. *)
Theorem post_agent_payouts_gate verify users req amount now s b :
  (forall code message,
     requireAgent verify users req = Denied code message ->
     (code = 401 \/ code = 403 \/ (code = 500 /\ users = None)) /\
     responseOf (post_agent_payouts verify users req amount now) s b =
       Some (Res code (Message message)) /\
     storeAfter (post_agent_payouts verify users req amount now) s b = s) /\
  (forall token payload,
     extractTokenFromCookies req access = Some token ->
     verify token = Some payload ->
     users = None ->
     responseOf (post_agent_payouts verify users req amount now) s b =
       Some (Res 500 (Message "Internal server error"))) /\
  (storeAfter (post_agent_payouts verify users req amount now) s b <> s ->
   exists table user,
     users = Some table /\
     authenticatedAs verify table req user /\ u_role user = AGENT /\
     post_agent_payouts verify users req amount now =
       createPayout (u_id user) amount now).
Proof.
  split; [|split].
  - unfold post_agent_payouts, requireAgent.
    pose proof (requireAuth_cases verify users req) as Hauth.
    destruct (requireAuth verify users req) as [au|code0 message0].
    + destruct Hauth as (table & user & _ & _ & ->). cbn [au_role].
      destruct (u_role user); [|discriminate].
      intros code message H. injection H as <- <-.
      split; [now right; left|now split].
    + intros code message H. injection H as <- <-.
      split; [|now split].
      destruct Hauth as [H|[H|(H & _ & Hn)]]; auto.
  - intros token payload Ht Hv ->.
    unfold post_agent_payouts, requireAgent.
    now rewrite (requireAuth_lookup_throws verify req token payload Ht Hv).
  - unfold post_agent_payouts, requireAgent.
    pose proof (requireAuth_cases verify users req) as Hauth.
    destruct (requireAuth verify users req) as [au|code0 message0].
    + destruct Hauth as (table & user & Ht & Hu & ->). cbn [au_role au_userId].
      destruct (u_role user) eqn:Er.
      * intros Hchanged. exfalso. now apply Hchanged.
      * intros _. exists table, user. now repeat split.
    + intros Hchanged. exfalso. now apply Hchanged.
Qed.

(** X13: the admin payout route.  The store changes only when the user
    lookup succeeds and the access-token cookie verifies to an active
    user with role ADMIN; every other request, an agent's included, is
    answered 401, 403, or 500 when the lookup throws, and writes
    nothing. *)
Theorem patch_payout_status_gate verify users req id status transactionId now s b :
  (forall code message,
     requireAdmin verify users req = Denied code message ->
     (code = 401 \/ code = 403 \/ (code = 500 /\ users = None)) /\
     responseOf (patch_payout_status verify users req id status transactionId now) s b =
       Some (Res code (Message message)) /\
     storeAfter (patch_payout_status verify users req id status transactionId now) s b =
       s) /\
  (forall token payload,
     extractTokenFromCookies req access = Some token ->
     verify token = Some payload ->
     users = None ->
     responseOf (patch_payout_status verify users req id status transactionId now) s b =
       Some (Res 500 (Message "Internal server error"))) /\
  (storeAfter (patch_payout_status verify users req id status transactionId now) s b
     <> s ->
   exists table user,
     users = Some table /\
     authenticatedAs verify table req user /\ u_role user = ADMIN /\
     patch_payout_status verify users req id status transactionId now =
       updatePayoutStatus id status transactionId now).
Proof.
  split; [|split].
  - unfold patch_payout_status, requireAdmin.
    pose proof (requireAuth_cases verify users req) as Hauth.
    destruct (requireAuth verify users req) as [au|code0 message0].
    + destruct Hauth as (table & user & _ & _ & ->). cbn [au_role].
      destruct (u_role user); [discriminate|].
      intros code message H. injection H as <- <-.
      split; [now right; left|now split].
    + intros code message H. injection H as <- <-.
      split; [|now split].
      destruct Hauth as [H|[H|(H & _ & Hn)]]; auto.
  - intros token payload Ht Hv ->.
    unfold patch_payout_status, requireAdmin.
    now rewrite (requireAuth_lookup_throws verify req token payload Ht Hv).
  - unfold patch_payout_status, requireAdmin.
    pose proof (requireAuth_cases verify users req) as Hauth.
    destruct (requireAuth verify users req) as [au|code0 message0].
    + destruct Hauth as (table & user & Ht & Hu & ->). cbn [au_role au_userId].
      destruct (u_role user) eqn:Er.
      * intros _. exists table, user. now repeat split.
      * intros Hchanged. exfalso. now apply Hchanged.
    + intros Hchanged. exfalso. now apply Hchanged.
Qed.

Lemma post_agent_payouts_gate_witness :
  ((401 = 401 \/ 401 = 403 \/ (401 = 500 /\ Some scenario_users = None)) /\
   responseOf (post_agent_payouts scenario_verify (Some scenario_users)
                 (mkRequest None None) (units 50) 5000) store_20_30_40 None =
     Some (Res 401 (Message "Access token not provided")) /\
   storeAfter (post_agent_payouts scenario_verify (Some scenario_users)
                 (mkRequest None None) (units 50) 5000) store_20_30_40 None =
     store_20_30_40) /\
  responseOf (post_agent_payouts scenario_verify None
                (request_with "tok-1") (units 50) 5000) store_20_30_40 None =
    Some (Res 500 (Message "Internal server error")) /\
  exists table user,
    Some scenario_users = Some table /\
    authenticatedAs scenario_verify table (request_with "tok-1") user /\
    u_role user = AGENT /\
    post_agent_payouts scenario_verify (Some scenario_users) (request_with "tok-1")
      (units 50) 5000 = createPayout (u_id user) (units 50) 5000.
Proof.
  split; [|split].
  - apply (proj1 (post_agent_payouts_gate scenario_verify (Some scenario_users)
                    (mkRequest None None) (units 50) 5000 store_20_30_40 None)).
    reflexivity.
  - apply (proj1 (proj2 (post_agent_payouts_gate scenario_verify None
                           (request_with "tok-1") (units 50) 5000
                           store_20_30_40 None))
             "tok-1" (mkJwtPayload 1 "agent@example.com" T_AGENT));
      reflexivity.
  - apply (proj2 (proj2 (post_agent_payouts_gate scenario_verify (Some scenario_users)
                           (request_with "tok-1") (units 50) 5000
                           store_20_30_40 None))).
    intros H. apply (f_equal nextId) in H. vm_compute in H. discriminate.
Defined.

Lemma patch_payout_status_gate_witness :
  ((403 = 401 \/ 403 = 403 \/ (403 = 500 /\ Some scenario_users = None)) /\
   responseOf (patch_payout_status scenario_verify (Some scenario_users)
                 (request_with "tok-1") 10 "APPROVED" None 6000) store_requested None =
     Some (Res 403 (Message "Access denied. Admin role required.")) /\
   storeAfter (patch_payout_status scenario_verify (Some scenario_users)
                 (request_with "tok-1") 10 "APPROVED" None 6000) store_requested None =
     store_requested) /\
  responseOf (patch_payout_status scenario_verify None
                (request_with "tok-9") 10 "APPROVED" None 6000) store_requested None =
    Some (Res 500 (Message "Internal server error")) /\
  exists table user,
    Some scenario_users = Some table /\
    authenticatedAs scenario_verify table (request_with "tok-9") user /\
    u_role user = ADMIN /\
    patch_payout_status scenario_verify (Some scenario_users) (request_with "tok-9")
      10 "APPROVED" None 6000 = updatePayoutStatus 10 "APPROVED" None 6000.
Proof.
  split; [|split].
  - apply (proj1 (patch_payout_status_gate scenario_verify (Some scenario_users)
                    (request_with "tok-1") 10 "APPROVED" None 6000
                    store_requested None)).
    reflexivity.
  - apply (proj1 (proj2 (patch_payout_status_gate scenario_verify None
                           (request_with "tok-9") 10 "APPROVED" None 6000
                           store_requested None))
             "tok-9" (mkJwtPayload 9 "admin@example.com" T_ADMIN));
      reflexivity.
  - apply (proj2 (proj2 (patch_payout_status_gate scenario_verify (Some scenario_users)
                           (request_with "tok-9") 10 "APPROVED" None 6000
                           store_requested None))).
    intros H. apply (f_equal payouts) in H. vm_compute in H. discriminate.
Defined.

(* ================================================================== *)
(** ** updateAgentStatus and the next request *)
(* ================================================================== *)

Lemma user_find_updated id isActive (users : list User) :
  find (fun u => Nat.eqb (u_id u) id)
       (map (fun u => if Nat.eqb (u_id u) id
                      then mkUser (u_id u) (u_email u) (u_role u) isActive else u)
            users) =
  option_map (fun u => mkUser (u_id u) (u_email u) (u_role u) isActive)
             (find (fun u => Nat.eqb (u_id u) id) users).
Proof.
  induction users as [|u users IH]; simpl; [reflexivity|].
  destruct (Nat.eqb (u_id u) id) eqn:E; simpl; now rewrite E.
Qed.

(** X14: activation takes effect at the next request.  After
    updateAgentStatus has deactivated a user, a request whose token
    verifies to that user and whose user lookup succeeds is answered 403
    by the agent payout route and writes nothing; after it has activated
    an agent, the route behaves as createPayout for that agent.  When
    the user lookup of the request throws, the answer is 500 and nothing
    is written, whatever the user's state. *)
Theorem updateAgentStatus_gates_next_request
    verify users id isActive users' user req token payload amount now s b :
  updateAgentStatus id isActive users = (users', Json 200 user) ->
  extractTokenFromCookies req access = Some token ->
  verify token = Some payload ->
  jwt_userId payload = id ->
  (isActive = false ->
   responseOf (post_agent_payouts verify (Some users') req amount now) s b =
     Some (Res 403 (Message "User not found or inactive")) /\
   storeAfter (post_agent_payouts verify (Some users') req amount now) s b = s) /\
  (isActive = true -> u_role user = AGENT ->
   post_agent_payouts verify (Some users') req amount now =
     createPayout id amount now) /\
  (responseOf (post_agent_payouts verify None req amount now) s b =
     Some (Res 500 (Message "Internal server error")) /\
   storeAfter (post_agent_payouts verify None req amount now) s b = s).
Proof.
  unfold updateAgentStatus. intros Hupd Htok Hver Hid.
  destruct (user_findUnique id users) as [u0|] eqn:Eu; [|inversion Hupd].
  injection Hupd as <- <-.
  assert (Hfind : user_findUnique (jwt_userId payload)
                    (map (fun u => if Nat.eqb (u_id u) id
                                   then mkUser (u_id u) (u_email u) (u_role u) isActive
                                   else u) users) =
                  Some (mkUser (u_id u0) (u_email u0) (u_role u0) isActive)).
  { rewrite Hid. unfold user_findUnique in *. now rewrite user_find_updated, Eu. }
  unfold post_agent_payouts, requireAgent, requireAuth.
  rewrite Htok, Hver, Hfind. cbn [u_isActive u_id u_email u_role].
  split; [|split].
  - intros ->. now split.
  - intros -> Hrole. cbn [u_role] in Hrole. cbn [negb au_role au_userId].
    rewrite Hrole. apply user_findUnique_id in Eu. destruct Eu as [-> _].
    reflexivity.
  - now split.
Qed.

Lemma updateAgentStatus_gates_next_request_witness :
  responseOf (post_agent_payouts scenario_verify
                (Some (fst (updateAgentStatus 1 false scenario_users)))
                (request_with "tok-1") (units 50) 5000) store_20_30_40 None =
    Some (Res 403 (Message "User not found or inactive")) /\
  storeAfter (post_agent_payouts scenario_verify
                (Some (fst (updateAgentStatus 1 false scenario_users)))
                (request_with "tok-1") (units 50) 5000) store_20_30_40 None =
    store_20_30_40.
Proof.
  apply (proj1 (updateAgentStatus_gates_next_request scenario_verify scenario_users
                  1 false (fst (updateAgentStatus 1 false scenario_users))
                  (mkUser 1 "agent@example.com" AGENT false)
                  (request_with "tok-1") "tok-1"
                  (mkJwtPayload 1 "agent@example.com" T_AGENT)
                  (units 50) 5000 store_20_30_40 None
                  eq_refl eq_refl eq_refl eq_refl)).
  reflexivity.
Defined.

(* ================================================================== *)
(** ** extractTokenFromHeader *)
(* ================================================================== *)

Lemma substring_all (t : string) : String.substring 0 (String.length t) t = t.
Proof. induction t as [|a t IH]; simpl; [reflexivity|]. now rewrite IH. Qed.

Lemma prefix_split (p h : string) :
  String.prefix p h = true ->
  h = (p ++ String.substring (String.length p)
                             (String.length h - String.length p) h)%string.
Proof.
  revert h. induction p as [|a p IH]; intros h Hp.
  - simpl. rewrite Nat.sub_0_r. symmetry. apply substring_all.
  - destruct h as [|b h]; [discriminate|]. simpl in Hp.
    destruct (Ascii.ascii_dec a b) as [->|]; [|discriminate].
    simpl. f_equal. now apply IH.
Qed.

(** X15: extractTokenFromHeader reads a token exactly from the headers
    of the form "Bearer " followed by the token: it gives back the token
    of such a header, and whenever it gives a token the header was
    "Bearer " followed by it; without an authorization header it gives
    null. *)
Theorem extractTokenFromHeader_bearer cookies header token :
  extractTokenFromHeader (mkRequest cookies (Some ("Bearer " ++ token)%string)) =
    Some token /\
  (extractTokenFromHeader (mkRequest cookies (Some header)) = Some token ->
   header = ("Bearer " ++ token)%string) /\
  extractTokenFromHeader (mkRequest cookies None) = None.
Proof.
  unfold extractTokenFromHeader. cbn [req_authorization]. split; [|split].
  - simpl. assert (Hp : String.prefix "" token = true) by now destruct token.
    now rewrite Hp, Nat.sub_0_r, substring_all.
  - destruct (String.prefix "Bearer " header) eqn:Ep; [|discriminate].
    intros H. injection H as <-. now apply (prefix_split "Bearer " header).
  - reflexivity.
Qed.

Lemma extractTokenFromHeader_bearer_witness :
  "Bearer abc.def" = ("Bearer " ++ "abc.def")%string.
Proof.
  apply (proj1 (proj2 (extractTokenFromHeader_bearer None "Bearer abc.def" "abc.def"))).
  reflexivity.
Defined.

(* ================================================================== *)
(** ** Repeating updatePayoutStatus *)
(* ================================================================== *)

Lemma applyUpdate_twice st tx now1 now2 p :
  applyUpdate (updateDataFor st tx now2) (applyUpdate (updateDataFor st tx now1) p) =
  applyUpdate (updateDataFor st tx now2) p.
Proof.
  unfold applyUpdate, updateDataFor.
  cbn [p_id p_userId p_amount p_transactionId p_approvedAt p_paidAt p_createdAt
       ud_status ud_transactionId ud_approvedAt ud_paidAt].
  f_equal.
  - now destruct (truthy tx).
  - now destruct (PayoutStatus_eqb st APPROVED).
  - now destruct (PayoutStatus_eqb st PAID).
Qed.

Lemma markCommissions_twice ids st cs :
  markCommissions ids st (markCommissions ids st cs) = markCommissions ids st cs.
Proof.
  unfold markCommissions. rewrite map_map. apply map_ext. intros c.
  destruct (existsb (Nat.eqb (c_id c)) ids) eqn:E.
  - cbn [c_id setCommissionStatus]. now rewrite E.
  - now rewrite E.
Qed.

Lemma filter_twice {A} (q : A -> bool) (l : list A) : filter q (filter q l) = filter q l.
Proof.
  induction l as [|x l IH]; simpl; [reflexivity|].
  destruct (q x) eqn:E; simpl; [now rewrite E, IH|assumption].
Qed.

(** X16: a repeated updatePayoutStatus is absorbed.  On an existing
    payout, calling updatePayoutStatus again with the same status and
    transaction id leaves the store, and gives the answer, of the last
    call alone: nothing but the timestamp the status sets is refreshed,
    and with the same clock reading the second call changes nothing. *)
Theorem updatePayoutStatus_repeat_absorbed id status transactionId now1 now2 s :
  payout_findUnique id s <> None ->
  let s1 := storeAfter (updatePayoutStatus id status transactionId now1) s None in
  storeAfter (updatePayoutStatus id status transactionId now2) s1 None =
    storeAfter (updatePayoutStatus id status transactionId now2) s None /\
  responseOf (updatePayoutStatus id status transactionId now2) s1 None =
    responseOf (updatePayoutStatus id status transactionId now2) s None.
Proof.
  intros Hex. cbv zeta.
  destruct (payout_findUnique id s) as [p|] eqn:Ep; [clear Hex|congruence].
  destruct (PayoutStatus_of_string status) as [st|] eqn:Est.
  2:{ unfold storeAfter, responseOf. rewrite !updatePayoutStatus_run, Est.
      cbn [fst snd]. now split. }
  assert (Hrun : forall now,
            updatePayoutStatus id status transactionId now s None =
            (resolved id st transactionId now p s, None,
             Some (Res 200 (PayoutJson
                     (applyUpdate (updateDataFor st transactionId now) p)))))
    by (intros now; now rewrite updatePayoutStatus_run, Est, Ep).
  unfold storeAfter, responseOf. rewrite !Hrun. cbn [fst snd].
  rewrite updatePayoutStatus_run, Est.
  rewrite (payout_findUnique_resolved id st transactionId now1 p s Ep).
  cbn [fst snd]. rewrite applyUpdate_twice. split; [|reflexivity].
  unfold resolved, payoutCommissions_of.
  cbn [commissions payouts payoutCommissions nextId]. f_equal.
  - (* commissions *)
    destruct st.
    + reflexivity.
    + apply markCommissions_twice.
    + apply markCommissions_twice.
    + cbn [p_status applyUpdate updateDataFor ud_status]. reflexivity.
  - (* payouts *)
    rewrite map_map. apply map_ext. intros x.
    destruct (Nat.eqb (p_id x) id) eqn:E.
    + rewrite applyUpdate_id, E. apply applyUpdate_twice.
    + now rewrite E.
  - (* links *)
    destruct st; try reflexivity. apply filter_twice.
Qed.

Lemma updatePayoutStatus_repeat_absorbed_witness :
  storeAfter (updatePayoutStatus 10 "APPROVED" None 6000) store_approved None =
    store_approved /\
  responseOf (updatePayoutStatus 10 "APPROVED" None 6000) store_approved None =
    responseOf (updatePayoutStatus 10 "APPROVED" None 6000) store_requested None.
Proof.
  apply (updatePayoutStatus_repeat_absorbed 10 "APPROVED" None 6000 6000
           store_requested).
  vm_compute. congruence.
Defined.

(* ================================================================== *)
(** ** How many writes the handlers make *)
(* ================================================================== *)

Lemma linkCommissions_within_budget payoutId cands : forall remaining s n,
  (List.length cands <= n)%nat ->
  linkCommissions payoutId cands remaining s (Some n) =
  (withLinks payoutId (linked cands remaining) s,
   Some (n - List.length (linked cands remaining))%nat, Some tt).
Proof.
  induction cands as [|c rest IH]; intros remaining s n Hn; simpl.
  - unfold ret, withLinks; simpl. rewrite app_nil_r, Nat.sub_0_r. now destruct s.
  - destruct (remaining <=? 0).
    + unfold ret, withLinks; simpl. rewrite app_nil_r, Nat.sub_0_r. now destruct s.
    + simpl in Hn. destruct n as [|n]; [lia|].
      unfold bind at 1. unfold payoutCommission_create, dbWrite.
      rewrite IH by lia. unfold withLinks; simpl.
      rewrite <- app_assoc. simpl. do 3 f_equal.
      f_equal. lia.
Qed.

(** X18: the handlers make few writes.  createPayout makes at most one
    write more than the agent has candidate commissions, and
    updatePayoutStatus at most three: on a store that fails only after
    that many writes they leave the store, and give the answer, they
    give on a store that never fails. *)
Theorem enough_writes_no_failure userId amount now id status transactionId s n :
  ((List.length (candidateCommissions userId s) < n)%nat ->
   storeAfter (createPayout userId amount now) s (Some n) =
     storeAfter (createPayout userId amount now) s None /\
   responseOf (createPayout userId amount now) s (Some n) =
     responseOf (createPayout userId amount now) s None) /\
  ((3 <= n)%nat ->
   storeAfter (updatePayoutStatus id status transactionId now) s (Some n) =
     storeAfter (updatePayoutStatus id status transactionId now) s None /\
   responseOf (updatePayoutStatus id status transactionId now) s (Some n) =
     responseOf (updatePayoutStatus id status transactionId now) s None).
Proof.
  split.
  - intros Hn.
    assert (E : exists b',
              createPayout userId amount now s (Some n) =
              (storeAfter (createPayout userId amount now) s None, b',
               responseOf (createPayout userId amount now) s None)).
    { unfold storeAfter, responseOf. rewrite createPayout_run.
      unfold createPayout, handler.
      destruct (amount <=? 0); [eexists; reflexivity|].
      destruct (amount <? minimumPayoutThreshold); [eexists; reflexivity|].
      unfold bind at 1. unfold dbRead at 1.
      destruct (amount >? computeAvailableBalance userId s); [eexists; reflexivity|].
      destruct n as [|n]; [lia|].
      unfold bind at 1. unfold payout_create, dbWrite.
      unfold bind at 1. unfold dbRead at 1.
      fold (newPayout userId amount now s).
      fold (withPayout (newPayout userId amount now s) s).
      rewrite candidateCommissions_withPayout by reflexivity.
      unfold bind at 1. rewrite linkCommissions_within_budget.
      - eexists. reflexivity.
      - rewrite (Permutation_length (orderBy_asc_perm c_amount _)). lia. }
    destruct E as [b' E]. unfold storeAfter at 1, responseOf at 1.
    rewrite E. now split.
  - intros Hn. destruct n as [|[|[|n]]]; try lia.
    assert (E : exists b',
              updatePayoutStatus id status transactionId now s (Some (S (S (S n)))) =
              (storeAfter (updatePayoutStatus id status transactionId now) s None, b',
               responseOf (updatePayoutStatus id status transactionId now) s None)).
    { unfold storeAfter, responseOf. rewrite updatePayoutStatus_run.
      unfold updatePayoutStatus, handler.
      destruct (PayoutStatus_of_string status) as [st|]; [|eexists; reflexivity].
      unfold bind at 1. unfold dbRead at 1.
      destruct (payout_findUnique id s) as [existing|]; [|eexists; reflexivity].
      unfold resolved.
      destruct st; destruct (p_status existing); eexists; reflexivity. }
    destruct E as [b' E]. unfold storeAfter at 1, responseOf at 1.
    rewrite E. now split.
Qed.

Lemma enough_writes_no_failure_witness :
  storeAfter (createPayout agent (units 50) 5000) store_20_30_40 (Some 4%nat) =
    storeAfter (createPayout agent (units 50) 5000) store_20_30_40 None /\
  responseOf (createPayout agent (units 50) 5000) store_20_30_40 (Some 4%nat) =
    responseOf (createPayout agent (units 50) 5000) store_20_30_40 None.
Proof.
  apply (proj1 (enough_writes_no_failure agent (units 50) 5000 10 "APPROVED" None
                  store_20_30_40 4)).
  vm_compute. lia.
Defined.

(* ================================================================== *)
(** ** Conservation over sequences of calls *)
(* ================================================================== *)

Lemma payout_find_map (g : Payout -> Payout) id (l : list Payout) :
  (forall p, p_id (g p) = p_id p) ->
  find (fun p => Nat.eqb (p_id p) id) (map g l) =
  option_map g (find (fun p => Nat.eqb (p_id p) id) l).
Proof.
  intros Hid. induction l as [|p l IH]; simpl; [reflexivity|].
  rewrite Hid. now destruct (Nat.eqb (p_id p) id).
Qed.

Lemma newLinks_In payoutId cs : forall n pc,
  In pc (newLinks payoutId n cs) ->
  pc_payoutId pc = payoutId /\ In (pc_commissionId pc) (map c_id cs).
Proof.
  induction cs as [|c cs IH]; intros n pc H; simpl in H; [contradiction|].
  destruct H as [<-|H]; [split; [reflexivity|now left]|].
  destruct (IH _ _ H) as [H1 H2]. split; [assumption|now right].
Qed.

Lemma payoutCommission_findMany_spec userId s pcp :
  In pcp (payoutCommission_findMany userId s) ->
  In (fst pcp) (payoutCommissions s) /\
  payout_findUnique (pc_payoutId (fst pcp)) s = Some (snd pcp) /\
  p_userId (snd pcp) = userId.
Proof.
  unfold payoutCommission_findMany. intros H. apply in_flat_map in H.
  destruct H as [pc [Hpc Hin]].
  destruct (payout_findUnique (pc_payoutId pc) s) as [p|] eqn:Ef; [|contradiction].
  destruct (Nat.eqb (p_userId p) userId) eqn:Eu; [|contradiction].
  destruct Hin as [<-|[]]. cbn [fst snd]. apply Nat.eqb_eq in Eu. now repeat split.
Qed.

(** A successful request keeps the invariant: the new link rows belong
    to the new payout, which is the requesting agent's, and point to
    candidates, which are that agent's commissions. *)
Lemma requested_preserves_invariant userId amount now cands s :
  incl cands (candidateCommissions userId s) ->
  ledgerInvariant s -> ledgerInvariant (requested userId amount now cands s).
Proof.
  intros Hcands [[Hnd Hpos] [Hfresh Hown]].
  split; [split; assumption|]. split.
  - destruct Hfresh as [Hp Hl]. unfold idsFresh, requested, withLinks, withPayout.
    cbn [payouts payoutCommissions nextId]. split.
    + apply Forall_app. split.
      * eapply Forall_impl; [|exact Hp]. intros p H. simpl in H. lia.
      * constructor; [simpl; lia|constructor].
    + apply Forall_app. split.
      * eapply Forall_impl; [|exact Hl]. intros pc H. simpl in H. lia.
      * apply Forall_forall. intros pc Hpc. apply newLinks_In in Hpc.
        destruct Hpc as [-> _]. lia.
  - intros pc p c Hpc Hfind Hc Hid.
    unfold requested, withLinks, withPayout in Hpc, Hc.
    cbn [payoutCommissions commissions] in Hpc, Hc.
    apply in_app_or in Hpc. destruct Hpc as [Hold|Hnew].
    + assert (Hne : pc_payoutId pc <> p_id (newPayout userId amount now s)).
      { destruct Hfresh as [_ Hl]. rewrite Forall_forall in Hl.
        specialize (Hl pc Hold). simpl. lia. }
      unfold payout_findUnique, requested, withLinks, withPayout in Hfind.
      cbn [payouts] in Hfind.
      rewrite (appended_payout_findUnique s _ _ Hne) in Hfind.
      now apply (Hown pc p c).
    + apply newLinks_In in Hnew. destruct Hnew as [Hpid Hcid].
      rewrite Hpid, (payout_findUnique_requested userId amount now cands s Hfresh)
        in Hfind.
      injection Hfind as <-. cbn [newPayout p_userId].
      apply in_map_iff in Hcid. destruct Hcid as [c0 [Hid0 Hin0]].
      apply linked_incl, Hcands in Hin0.
      unfold candidateCommissions in Hin0. apply filter_In in Hin0.
      destruct Hin0 as [Hin0 Hf0].
      assert (c = c0) by (apply (NoDup_ids_eq (commissions s)); auto; congruence).
      subst c0. apply andb_prop in Hf0. destruct Hf0 as [Hf0 _].
      apply andb_prop in Hf0. destruct Hf0 as [Hu Hst].
      apply Nat.eqb_eq in Hu. split; [assumption|].
      intros Hb. rewrite Hb in Hst. discriminate.
Qed.

Lemma markCommissions_owner ids st cs c' :
  In c' (markCommissions ids st cs) ->
  exists c, In c cs /\ c_id c' = c_id c /\ c_userId c' = c_userId c /\
            (c' = c \/ c_status c' = st).
Proof.
  unfold markCommissions. intros H. apply in_map_iff in H.
  destruct H as [c [Hc Hin]]. exists c. split; [assumption|].
  destruct (existsb (Nat.eqb (c_id c)) ids); subst c'; simpl; auto.
Qed.

(** updatePayoutStatus keeps the invariant: it changes neither ids nor
    owners, adds no link, and sets commissions to PAID or APPROVED
    only. *)
Lemma resolved_preserves_invariant id st tx now existing s :
  ledgerInvariant s -> ledgerInvariant (resolved id st tx now existing s).
Proof.
  intros [[Hnd Hpos] [Hfresh Hown]].
  destruct (resolved_ledger id st tx now existing s) as [Hcs Hincl].
  assert (Hfind : forall i,
            payout_findUnique i (resolved id st tx now existing s) =
            option_map (fun p => if Nat.eqb (p_id p) id
                                 then applyUpdate (updateDataFor st tx now) p else p)
                       (payout_findUnique i s)).
  { intros i. unfold payout_findUnique, resolved. cbn [payouts].
    apply payout_find_map. intros p. now destruct (Nat.eqb (p_id p) id). }
  split; [|split].
  - unfold commissionsWellFormed.
    destruct Hcs as [Hsame|[ids [cst [_ Hmark]]]];
      [rewrite Hsame; now split|rewrite Hmark]. split.
    + now rewrite markCommissions_ids.
    + now apply markCommissions_amounts.
  - destruct Hfresh as [Hp Hl]. split.
    + unfold resolved. cbn [payouts nextId]. apply Forall_map.
      eapply Forall_impl; [|exact Hp]. intros p H. cbn beta.
      now destruct (Nat.eqb (p_id p) id).
    + apply Forall_forall. intros pc Hpc. apply Hincl in Hpc.
      rewrite Forall_forall in Hl. now apply Hl.
  - intros pc p c' Hpc Hf Hc Hid. apply Hincl in Hpc. rewrite Hfind in Hf.
    destruct (payout_findUnique (pc_payoutId pc) s) as [p0|] eqn:Ef0; [|discriminate].
    injection Hf as <-.
    assert (Hu : p_userId (if Nat.eqb (p_id p0) id
                           then applyUpdate (updateDataFor st tx now) p0 else p0) =
                 p_userId p0) by now destruct (Nat.eqb (p_id p0) id).
    rewrite Hu.
    destruct Hcs as [Hsame|[ids [cst [Hcst Hmark]]]].
    + rewrite Hsame in Hc. now apply (Hown pc p0 c').
    + rewrite Hmark in Hc. apply markCommissions_owner in Hc.
      destruct Hc as (c & Hc & Hidc & Huc & Hcase).
      destruct (Hown pc p0 c Hpc Ef0 Hc) as [H1 H2]; [congruence|].
      split; [congruence|].
      destruct Hcase as [->|Hst]; [assumption|congruence].
Qed.

Lemma call_preserves_invariant c s :
  ledgerInvariant s -> ledgerInvariant (storeAfter (call c) s None).
Proof.
  intros Hinv. destruct c as [userId amount now|id status tx now];
    unfold storeAfter; simpl.
  - rewrite createPayout_run.
    destruct (amount <=? 0); [assumption|].
    destruct (amount <? minimumPayoutThreshold); [assumption|].
    destruct (amount >? computeAvailableBalance userId s); [assumption|].
    cbn [fst]. apply requested_preserves_invariant; [|assumption].
    apply orderBy_asc_incl.
  - rewrite updatePayoutStatus_run.
    destruct (PayoutStatus_of_string status) as [st|]; [|assumption].
    destruct (payout_findUnique id s) as [existing|]; [|assumption].
    cbn [fst]. now apply resolved_preserves_invariant.
Qed.

Lemma runCalls_invariant calls : forall s,
  ledgerInvariant s -> ledgerInvariant (runCalls calls s).
Proof.
  unfold runCalls. induction calls as [|c calls IH]; intros s H; simpl; [assumption|].
  apply IH. now apply call_preserves_invariant.
Qed.

(** updateCommissionStatus keeps the invariant unless it blocks. *)
Lemma updateCommissionStatus_preserves_invariant id status s :
  CommissionStatus_of_string status <> Some C_BLOCKED ->
  ledgerInvariant s ->
  ledgerInvariant (storeAfter (updateCommissionStatus id status) s None).
Proof.
  intros Hnb Hinv. unfold storeAfter.
  rewrite updateCommissionStatus_run.
  destruct (CommissionStatus_of_string status) as [st|]; [|assumption].
  destruct (commission_findUnique id s) as [c0|]; [|assumption].
  destruct Hinv as [[Hnd Hpos] [Hfresh Hown]]. cbn [fst].
  assert (Hmap : forall c', In c' (map (fun c => if Nat.eqb (c_id c) id
                                                 then setCommissionStatus st c else c)
                                       (commissions s)) ->
                 exists c, In c (commissions s) /\ c_id c' = c_id c /\
                           c_userId c' = c_userId c /\
                           c_amount c' = c_amount c /\
                           (c' = c \/ c_status c' = st)).
  { intros c' Hin. apply in_map_iff in Hin. destruct Hin as [c [Hc Hin]].
    exists c. split; [assumption|].
    destruct (Nat.eqb (c_id c) id); subst c'; simpl; auto. }
  split; [split|split]; cbn [commissions payoutCommissions].
  - rewrite map_map.
    rewrite (map_ext _ c_id); [assumption|].
    intros c. now destruct (Nat.eqb (c_id c) id).
  - apply Forall_forall. intros c' Hin.
    destruct (Hmap c' Hin) as (c & Hc & _ & _ & Ha & _).
    rewrite Ha. rewrite Forall_forall in Hpos. now apply Hpos.
  - exact Hfresh.
  - intros pc p c' Hpc Hf Hin Hid. cbn [commissions payoutCommissions] in *.
    destruct (Hmap c' Hin) as (c & Hc & Hidc & Huc & _ & Hcase).
    destruct (Hown pc p c Hpc Hf Hc) as [H1 H2]; [congruence|].
    split; [congruence|].
    destruct Hcase as [->|Hst]; [assumption|].
    rewrite Hst. intros ->. now apply Hnb.
Qed.

Lemma runLedgerCalls_invariant calls :
  Forall blocksNothing calls ->
  forall s, ledgerInvariant s -> ledgerInvariant (runLedgerCalls calls s).
Proof.
  unfold runLedgerCalls.
  induction 1 as [|c calls Hc _ IH]; intros s Hinv; simpl; [assumption|].
  apply IH. destruct c as [c|id status]; simpl.
  - now apply call_preserves_invariant.
  - now apply updateCommissionStatus_preserves_invariant.
Qed.

(** In a store that satisfies the invariant, every commission linked to
    a non-REJECTED payout of the agent is one the agent earned. *)
Lemma invariant_conservation userId s :
  ledgerInvariant s -> distinctLinkedActiveValue userId s <= totalEarned userId s.
Proof.
  intros [[Hnd Hpos] [_ Hown]].
  unfold distinctLinkedActiveValue, totalEarned, commission_findMany.
  apply reduce_sum_filter_le.
  - intros c Hc. rewrite Forall_forall in Hpos. now apply Hpos.
  - intros c Hc Hl.
    unfold linkedToActive in Hl. apply existsb_exists in Hl.
    destruct Hl as [pcp [Hin Hl]]. apply andb_prop in Hl. destruct Hl as [Hid _].
    apply Nat.eqb_eq in Hid. apply payoutCommission_findMany_spec in Hin.
    destruct Hin as (Hpc & Hf & Hu).
    destruct (Hown (fst pcp) (snd pcp) c Hpc Hf Hc (eq_sym Hid)) as [Huc Hst].
    rewrite Huc, Hu, Nat.eqb_refl. simpl.
    destruct (c_status c); simpl; congruence.
Qed.

Lemma no_links_invariant s :
  payoutCommissions s = [] -> commissionsWellFormed s -> payoutIdsFresh s ->
  ledgerInvariant s.
Proof.
  intros Hnil Hwf Hfresh. split; [assumption|]. split.
  - split; [exact Hfresh|]. rewrite Hnil. constructor.
  - intros pc p c Hpc. rewrite Hnil in Hpc. contradiction.
Qed.

(** C1, amended: over every sequence of requestPayout and resolvePayout
    calls starting from a store with no links (commission ids unique,
    amounts not negative, the ids of new rows not in use), the sum of the
    amounts of the commissions linked to the agent's non-REJECTED
    payouts, whoever owns them and each commission counted once however
    many payouts it is linked to, never exceeds the agent's total earned
    commission amount. *)
Theorem C1_conservation_counting_once userId calls s0 :
  payoutCommissions s0 = [] ->
  commissionsWellFormed s0 ->
  payoutIdsFresh s0 ->
  distinctLinkedActiveValue userId (runCalls calls s0) <=
  totalEarned userId (runCalls calls s0).
Proof.
  intros Hnil Hwf Hfresh.
  apply invariant_conservation, runCalls_invariant.
  now apply no_links_invariant.
Qed.

(** The agent with a commission of 60 requests 60 while agent 2 has a
    smaller commission: the request links the agent's commission only,
    and the linked value is within the 60 earned. *)
Lemma C1_witness :
  distinctLinkedActiveValue agent
    (runCalls [RequestPayout agent (units 60) 5000] store_two_agents) <=
  totalEarned agent (runCalls [RequestPayout agent (units 60) 5000] store_two_agents).
Proof.
  apply (C1_conservation_counting_once agent
           [RequestPayout agent (units 60) 5000] store_two_agents).
  - reflexivity.
  - split.
    + repeat constructor; simpl; intuition discriminate.
    + repeat constructor; vm_compute; discriminate.
  - constructor.
Defined.

(** X17: conservation survives status edits that block nothing.  From a
    store with no links (commission ids unique, amounts not negative,
    the ids of new rows not in use), over every sequence of
    createPayout, updatePayoutStatus and updateCommissionStatus calls in
    which no commission is set to BLOCKED, the commissions linked to an
    agent's non-REJECTED payouts, whoever owns them and each counted
    once, are never worth more than the agent's total earned commission
    amount. *)
Theorem conservation_with_status_edits userId calls s0 :
  payoutCommissions s0 = [] ->
  commissionsWellFormed s0 ->
  payoutIdsFresh s0 ->
  Forall blocksNothing calls ->
  distinctLinkedActiveValue userId (runLedgerCalls calls s0) <=
  totalEarned userId (runLedgerCalls calls s0).
Proof.
  intros Hnil Hwf Hfresh Hcalls.
  apply invariant_conservation, runLedgerCalls_invariant; [assumption|].
  now apply no_links_invariant.
Qed.

Lemma conservation_with_status_edits_witness :
  distinctLinkedActiveValue agent
    (runLedgerCalls [PayoutCall (RequestPayout agent (units 60) 5000);
                     CommissionStatusCall 1 "PAID";
                     PayoutCall (RequestPayout 2 (units 60) 5100)] store_two_agents) <=
  totalEarned agent
    (runLedgerCalls [PayoutCall (RequestPayout agent (units 60) 5000);
                     CommissionStatusCall 1 "PAID";
                     PayoutCall (RequestPayout 2 (units 60) 5100)] store_two_agents).
Proof.
  apply (conservation_with_status_edits agent
           [PayoutCall (RequestPayout agent (units 60) 5000);
            CommissionStatusCall 1 "PAID";
            PayoutCall (RequestPayout 2 (units 60) 5100)] store_two_agents).
  - reflexivity.
  - split.
    + repeat constructor; simpl; intuition discriminate.
    + repeat constructor; vm_compute; discriminate.
  - constructor.
  - repeat constructor; vm_compute; discriminate.
Defined.

(* ================================================================== *)
(** ** createPayout: the outcomes of a request *)
(* ================================================================== *)







(* ================================================================== *)
(** ** Amounts on which the handlers' doubles are exact *)
(* ================================================================== *)

Lemma wholeUnits_divide x : wholeUnits x = true <-> (100 | x).
Proof.
  unfold wholeUnits. rewrite Z.eqb_eq. apply Z.mod_divide. discriminate.
Qed.

Lemma wholeUnits_sum {A} (f : A -> Z) (l : list A) :
  (forall x, In x l -> wholeUnits (f x) = true) ->
  wholeUnits (reduce_sum f l) = true.
Proof.
  induction l as [|x l IH]; intros H; [reflexivity|].
  rewrite reduce_sum_cons. apply wholeUnits_divide. apply Z.divide_add_r.
  - apply wholeUnits_divide, H. now left.
  - apply wholeUnits_divide, IH. intros y Hy. apply H. now right.
Qed.

Lemma abs_sum_le {A} (f : A -> Z) (l : list A) :
  Z.abs (reduce_sum f l) <= reduce_sum (fun x => Z.abs (f x)) l.
Proof.
  induction l as [|x l IH]; [reflexivity|]. rewrite !reduce_sum_cons. lia.
Qed.

Lemma abs_sum_nonneg {A} (f : A -> Z) (l : list A) :
  0 <= reduce_sum (fun x => Z.abs (f x)) l.
Proof.
  induction l as [|x l IH]; [reflexivity|]. rewrite reduce_sum_cons. lia.
Qed.

Lemma abs_sum_filter_le {A} (f : A -> Z) (q : A -> bool) (l : list A) :
  reduce_sum (fun x => Z.abs (f x)) (filter q l) <=
  reduce_sum (fun x => Z.abs (f x)) l.
Proof.
  induction l as [|x l IH]; [reflexivity|]. simpl.
  destruct (q x); rewrite !reduce_sum_cons; lia.
Qed.

Lemma In_abs_le_sum {A} (f : A -> Z) (l : list A) x :
  In x l -> Z.abs (f x) <= reduce_sum (fun x => Z.abs (f x)) l.
Proof.
  induction l as [|y l IH]; intros H; [contradiction|]. rewrite reduce_sum_cons.
  pose proof (abs_sum_nonneg f l).
  destruct H as [->|H]; [lia|]. specialize (IH H). lia.
Qed.

Lemma sum_terms_bounded {A} (f : A -> Z) (l : list A) M :
  (forall x, In x l -> Z.abs (f x) <= M) ->
  reduce_sum (fun x => Z.abs (f x)) l <= Z.of_nat (List.length l) * M.
Proof.
  induction l as [|x l IH]; intros H; [reflexivity|].
  rewrite reduce_sum_cons. cbn [List.length]. rewrite Nat2Z.inj_succ.
  assert (Z.abs (f x) <= M) by (apply H; now left).
  assert (reduce_sum (fun x => Z.abs (f x)) l <= Z.of_nat (List.length l) * M)
    by (apply IH; intros y Hy; apply H; now right).
  lia.
Qed.

Lemma payoutCommission_findMany_length userId s (q : PayoutCommission * Payout -> bool) :
  (List.length (filter q (payoutCommission_findMany userId s)) <=
   List.length (payoutCommissions s))%nat.
Proof.
  unfold payoutCommission_findMany.
  induction (payoutCommissions s) as [|pc l IH]; [simpl; lia|].
  cbn [flat_map]. rewrite filter_app, length_app. cbn [List.length].
  destruct (payout_findUnique (pc_payoutId pc) s) as [p|]; [|simpl; lia].
  destruct (Nat.eqb (p_userId p) userId); [|simpl; lia].
  simpl. destruct (q (pc, p)); simpl; lia.
Qed.

(** Where [exactAmounts] holds, the sums of the balance computation, the
    value subtracted and the balance itself are whole numbers of
    currency units within the range doubles hold exactly. *)
Lemma exactAmounts_balance userId amount s :
  exactAmounts amount s = true ->
  exactValue (totalEarned userId s) /\
  exactValue (usedInProcessedPayouts userId s) /\
  exactValue (payout_sumPending userId s) /\
  exactValue (pendingLinkedValue userId s) /\
  exactValue (usedInProcessedPayouts userId s +
              Z.min (pendingLinkedValue userId s) (payout_sumPending userId s)) /\
  exactValue (totalEarned userId s -
              (usedInProcessedPayouts userId s +
               Z.min (pendingLinkedValue userId s) (payout_sumPending userId s))) /\
  exactValue (computeAvailableBalance userId s).
Proof.
  unfold exactAmounts. intros H.
  apply andb_prop in H. destruct H as [H Hbound].
  apply andb_prop in H. destruct H as [H Hp].
  apply andb_prop in H. destruct H as [_ Hc].
  rewrite forallb_forall in Hc, Hp. apply Z.leb_le in Hbound.
  unfold magnitude in Hbound.
  set (C := reduce_sum (fun c => Z.abs (c_amount c)) (commissions s)) in *.
  set (P := reduce_sum (fun p => Z.abs (p_amount p)) (payouts s)) in *.
  set (n := Z.of_nat (List.length (payoutCommissions s))) in *.
  set (m := Z.of_nat (List.length (commissions s))) in *.
  assert (HC : 0 <= C) by apply abs_sum_nonneg.
  assert (HP : 0 <= P) by apply abs_sum_nonneg.
  assert (Hn : 0 <= n) by apply Nat2Z.is_nonneg.
  assert (Hm : 0 <= m) by apply Nat2Z.is_nonneg.
  (* the four sums *)
  assert (HT : wholeUnits (totalEarned userId s) = true /\
               Z.abs (totalEarned userId s) <= C).
  { unfold totalEarned, commission_findMany. split.
    - apply wholeUnits_sum. intros c Hin. apply filter_In in Hin. now apply Hc.
    - etransitivity; [apply abs_sum_le|]. apply abs_sum_filter_le. }
  assert (HR : wholeUnits (payout_sumPending userId s) = true /\
               Z.abs (payout_sumPending userId s) <= P).
  { unfold payout_sumPending. split.
    - apply wholeUnits_sum. intros p Hin. apply filter_In in Hin. now apply Hp.
    - etransitivity; [apply abs_sum_le|]. apply abs_sum_filter_le. }
  assert (Hrow : forall pcp, In pcp (payoutCommission_findMany userId s) ->
                             In (snd pcp) (payouts s)).
  { intros pcp Hin. apply payoutCommission_findMany_spec in Hin.
    destruct Hin as (_ & Hf & _). unfold payout_findUnique in Hf.
    now apply find_some in Hf. }
  assert (HU : wholeUnits (usedInProcessedPayouts userId s) = true /\
               Z.abs (usedInProcessedPayouts userId s) <= n * P).
  { unfold usedInProcessedPayouts. split.
    - apply wholeUnits_sum. intros pcp Hin. apply filter_In in Hin.
      apply Hp, Hrow, Hin.
    - etransitivity; [apply abs_sum_le|].
      etransitivity; [apply (sum_terms_bounded _ _ P)|].
      + intros pcp Hin. apply filter_In in Hin.
        apply (In_abs_le_sum p_amount), Hrow, Hin.
      + pose proof (payoutCommission_findMany_length userId s isProcessed) as Hl.
        apply Nat2Z.inj_le in Hl. fold n in Hl. nia. }
  assert (Hterm : forall pcp,
            wholeUnits (linkedCommissionAmount
                          (commission_findMany userId [C_PENDING; C_APPROVED; C_PAID] s)
                          pcp) = true /\
            Z.abs (linkedCommissionAmount
                     (commission_findMany userId [C_PENDING; C_APPROVED; C_PAID] s)
                     pcp) <= C).
  { intros pcp. unfold linkedCommissionAmount.
    destruct (find _ _) as [c|] eqn:Ef; [|split; [reflexivity|simpl; lia]].
    apply find_some in Ef. destruct Ef as [Hin _].
    unfold commission_findMany in Hin. apply filter_In in Hin.
    destruct Hin as [Hin _]. split; [now apply Hc|].
    now apply (In_abs_le_sum c_amount). }
  assert (HV : wholeUnits (pendingLinkedValue userId s) = true /\
               Z.abs (pendingLinkedValue userId s) <= n * C).
  { unfold pendingLinkedValue. split.
    - apply wholeUnits_sum. intros pcp _. apply Hterm.
    - etransitivity; [apply abs_sum_le|].
      etransitivity; [apply (sum_terms_bounded _ _ C)|].
      + intros pcp _. apply Hterm.
      + pose proof (payoutCommission_findMany_length userId s isPending) as Hl.
        apply Nat2Z.inj_le in Hl. fold n in Hl. nia. }
  destruct HT as [HTw HTb], HR as [HRw HRb], HU as [HUw HUb], HV as [HVw HVb].
  assert (HB : (2 + n) * (C + P) <= units (2 ^ 53)).
  { etransitivity; [|exact Hbound].
    assert (0 <= Z.abs amount) by apply Z.abs_nonneg. nia. }
  assert (HEw : wholeUnits (Z.min (pendingLinkedValue userId s)
                                  (payout_sumPending userId s)) = true).
  { destruct (Z.min_spec (pendingLinkedValue userId s) (payout_sumPending userId s))
      as [[_ ->]|[_ ->]]; assumption. }
  assert (HEb : Z.abs (Z.min (pendingLinkedValue userId s)
                             (payout_sumPending userId s)) <= n * C + P) by nia.
  assert (HUEw : wholeUnits (usedInProcessedPayouts userId s +
                             Z.min (pendingLinkedValue userId s)
                                   (payout_sumPending userId s)) = true).
  { apply wholeUnits_divide, Z.divide_add_r; now apply wholeUnits_divide. }
  assert (HDw : wholeUnits (totalEarned userId s -
                            (usedInProcessedPayouts userId s +
                             Z.min (pendingLinkedValue userId s)
                                   (payout_sumPending userId s))) = true).
  { apply wholeUnits_divide, Z.divide_sub_r; now apply wholeUnits_divide. }
  unfold exactValue. repeat split; try assumption; try nia.
  - rewrite computeAvailableBalance_parts.
    destruct (Z.max_spec 0 (totalEarned userId s -
                            (usedInProcessedPayouts userId s +
                             Z.min (pendingLinkedValue userId s)
                                   (payout_sumPending userId s))))
      as [[_ ->]|[_ ->]]; [assumption|reflexivity].
  - rewrite computeAvailableBalance_parts. nia.
Qed.
